(** * Gearhulk: worker runtime, worker-side packet decoder and CLI helpers

    A shallow embedding of the Go sources of [github.com/drawks/gearhulk]:

    - [worker/inpack.go]   : [inPack], [decodeInPack]
    - [worker/worker.go]   : [Worker], [AddFunc], [RemoveFunc], [Ready],
                             [exec], [execTimeout], [prepFuncOutpack],
                             [reRegisterFuncsForAgent]
    - [cmd/worker.go]      : [processJobWithPersistentSubprocess]
    - [cmd/client.go]      : [runClient] and its delimiter split function

    Go values are modelled as the code has them: a [[]byte] and a Go
    [string] are both sequences of bytes ([list byte]); [uint32] is an [N]
    below [2^32]; a Go [map[string]*jobFunc] is a [gmap]; [nil] pointers and
    [nil] errors are [None].  Effects (packets written to an agent, bytes
    written to a pipe, lines printed) are collected in explicit traces. *)

From Stdlib Require Import ZArith NArith List Lia.
From Stdlib Require Strings.Byte Strings.String.
From stdpp Require Import base option list gmap countable strings.

Local Open Scope N_scope.

(** A Go [[]byte]; a Go [string] is the same thing, immutable. *)
Import Corelib.Init.Byte.

Abbreviation bytes := (list byte).

#[global] Instance byte_eq_dec : EqDecision byte := Byte.byte_eq_dec.

#[global] Program Instance byte_countable : Countable byte :=
  inj_countable Byte.to_N Byte.of_N _.
Next Obligation. intros b. apply Byte.of_to_N. Qed.

(** The byte with value [n mod 256]: Go's [byte(n)] conversion. *)
Definition byte_of (n : N) : byte :=
  match Byte.of_N (n mod 256) with
  | Some b => b
  | None => "000"%byte
  end.

(** Byte constants used by the sources. *)
Definition NUL : byte := "000"%byte.
Definition LF : byte := "010"%byte.
Definition CR : byte := "013"%byte.

(** Readable literals for examples: the bytes of a Rocq string. *)
Definition B (s : String.string) : bytes := String.list_byte_of_string s.
Arguments B s%_string.

(* ------------------------------------------------------------------ *)
(** ** Models of the Go standard library functions the sources call    *)
(* ------------------------------------------------------------------ *)

Module GoLib.

(** The slice expression [s[i:j]] (for [i <= j <= len(s)]). *)
Definition slice (s : bytes) (i j : nat) : bytes := take (j - i) (drop i s).

(** [bytes.IndexByte(s, c)]: index of the first [c] in [s]. *)
Fixpoint IndexByte (s : bytes) (c : byte) : option nat :=
  match s with
  | [] => None
  | b :: s' =>
      if decide (b = c) then Some 0%nat
      else S <$> IndexByte s' c
  end.

(** [bytes.HasPrefix(s, p)]. *)
Fixpoint HasPrefix (s p : bytes) {struct p} : bool :=
  match p, s with
  | [], _ => true
  | _ :: _, [] => false
  | c :: p', b :: s' => bool_decide (b = c) && HasPrefix s' p'
  end.

(** [bytes.Index(s, sep)] / [strings.Index]: index of the first
    occurrence of [sep] in [s]. *)
Fixpoint Index (s sep : bytes) : option nat :=
  if HasPrefix s sep then Some 0%nat
  else match s with
       | [] => None
       | _ :: s' => S <$> Index s' sep
       end.

(** [bytes.SplitN(s, sep, n)] for a non-empty [sep] and [n > 0]: at most
    [n] pieces, the last one being the unsplit remainder.  ([n = 0]
    yields [nil], as in Go.) *)
Fixpoint SplitN (s sep : bytes) (n : nat) : list bytes :=
  match n with
  | O => []
  | S O => [s]
  | S n' =>
      match Index s sep with
      | None => [s]
      | Some m => take m s :: SplitN (drop (m + length sep) s) sep n'
      end
  end.

(** [strings.Split(s, sep)] for a non-empty [sep]: [SplitN] with no
    bound on the number of pieces (there are at most [len(s)+1]). *)
Definition Split (s sep : bytes) : list bytes :=
  SplitN s sep (S (length s)).

(** [strings.Join(elems, sep)]. *)
Fixpoint Join (elems : list bytes) (sep : bytes) : bytes :=
  match elems with
  | [] => []
  | [e] => e
  | e :: rest => e ++ sep ++ Join rest sep
  end.

(** [strings.HasSuffix(s, suffix)]. *)
Definition HasSuffix (s suffix : bytes) : bool :=
  HasPrefix (rev s) (rev suffix).

(** [strings.TrimSuffix(s, suffix)]. *)
Definition TrimSuffix (s suffix : bytes) : bytes :=
  if HasSuffix s suffix then take (length s - length suffix)%nat s else s.

(** The UTF-8 encodings of the code points for which [unicode.IsSpace]
    holds: TAB, LF, VT, FF, CR, SPACE, U+0085, U+00A0, U+1680,
    U+2000..U+200A, U+2028, U+2029, U+202F, U+205F, U+3000. *)
Definition space_encodings : list bytes :=
  let b := byte_of in
  [ [b 9]; [b 10]; [b 11]; [b 12]; [b 13]; [b 32];
    [b 0xC2; b 0x85]; [b 0xC2; b 0xA0];
    [b 0xE1; b 0x9A; b 0x80] ]
  ++ map (fun k => [b 0xE2; b 0x80; b (0x80 + k)])
       [0; 1; 2; 3; 4; 5; 6; 7; 8; 9; 10]
  ++ [ [b 0xE2; b 0x80; b 0xA8]; [b 0xE2; b 0x80; b 0xA9];
       [b 0xE2; b 0x80; b 0xAF]; [b 0xE2; b 0x81; b 0x9F];
       [b 0xE3; b 0x80; b 0x80] ].

(** Width of the white-space rune [s] starts with, if any. *)
Definition leading_space (encs : list bytes) (s : bytes) : option nat :=
  length <$> List.find (HasPrefix s) encs.

(** [strings.TrimLeftFunc(s, unicode.IsSpace)]; [fuel] bounds the number
    of runes removed. *)
Fixpoint trim_left (encs : list bytes) (fuel : nat) (s : bytes) : bytes :=
  match fuel with
  | O => s
  | S fuel' =>
      match leading_space encs s with
      | Some w => trim_left encs fuel' (drop w s)
      | None => s
      end
  end.

Definition TrimLeftSpace (s : bytes) : bytes :=
  trim_left space_encodings (length s) s.

(** [strings.TrimRightFunc(s, unicode.IsSpace)]: the same scan from the
    end of the string. *)
Definition TrimRightSpace (s : bytes) : bytes :=
  rev (trim_left (map (@rev byte) space_encodings) (length s) (rev s)).

(** [strings.TrimSpace(s)]. *)
Definition TrimSpace (s : bytes) : bytes :=
  TrimRightSpace (TrimLeftSpace s).

(** [binary.BigEndian.Uint32(b)] on the first four bytes of [b]. *)
Definition Uint32 (b : bytes) : N :=
  match b with
  | b0 :: b1 :: b2 :: b3 :: _ =>
      N.lor (N.lor (N.lor (Byte.to_N b3) (N.shiftl (Byte.to_N b2) 8))
               (N.shiftl (Byte.to_N b1) 16))
        (N.shiftl (Byte.to_N b0) 24)
  | _ => 0
  end.

(** The four bytes [binary.BigEndian.PutUint32(b, v)] stores. *)
Definition PutUint32 (v : N) : bytes :=
  [ byte_of (N.shiftr v 24); byte_of (N.shiftr v 16);
    byte_of (N.shiftr v 8); byte_of v ].

(** The builtin [copy(dst, src)]: overwrites the first
    [min(len(dst), len(src))] bytes of [dst]. *)
Definition copy (dst src : bytes) : bytes :=
  take (length dst) src ++ drop (length src) dst.

(** [copy(dst[off:], src)] seen on the whole of [dst]. *)
Definition copy_at (dst : bytes) (off : nat) (src : bytes) : bytes :=
  take off dst ++ copy (drop off dst) src.

End GoLib.

(** *** [bufio.Scanner] *)

Module bufio.
Import GoLib.

(** [MaxScanTokenSize = 64 * 1024]: the size the buffer of a [Scanner]
    may grow to. *)
Definition MaxScanTokenSize : nat := 64 * 1024.

(** A [SplitFunc], with the two results the functions used here give
    other than a nil error: the bytes to advance and the token ([None]
    for a nil token). *)
Definition SplitFunc : Type := bytes -> bool -> nat * option bytes.

(** [dropCR] drops a terminal [\r] from the data. *)
Definition dropCR (data : bytes) : bytes :=
  match last data with
  | Some c =>
      if decide (c = CR) then take (length data - 1) data else data
  | None => data
  end.

(** [bufio.ScanLines]: each line of text, stripped of any trailing
    end-of-line marker (one optional carriage return followed by one
    mandatory newline); the last line may lack the newline. *)
Definition ScanLines : SplitFunc := fun data atEOF =>
  if atEOF && bool_decide (length data = 0%nat) then (0%nat, None)
  else
    match IndexByte data LF with
    | Some i => ((i + 1)%nat, Some (dropCR (take i data)))
    | None =>
        if atEOF then (length data, Some (dropCR data)) else (0%nat, None)
    end.

(** The errors [Scanner.Err] reports.  [ErrNoProgress] stands for a scan
    that ran out of [fuel]; no scan started by [Scan] does. *)
Inductive scan_error : Type :=
| ErrTooLong
| ErrAdvanceTooFar
| ErrNoProgress.

(** The state of a [Scanner] on a reader: [src] is the input the reader
    has not delivered yet, [wanted] the sizes the coming [Read] calls
    would deliver if the buffer had room (the operating system decides
    how a stream arrives in pieces), [buf] the buffered bytes not yet
    consumed ([s.buf[s.start:s.end]]), [eof] whether the reader has
    reported [io.EOF]. *)
Record Scanner : Type := mkScanner {
  src : bytes;
  wanted : list nat;
  buf : bytes;
  eof : bool
}.

Definition NewScanner (input : bytes) (wanted : list nat) : Scanner :=
  {| src := input; wanted := wanted; buf := []; eof := false |}.

(** The number of bytes a [Read] into the free part of the buffer
    delivers: what the reader would like to deliver, at most the free
    room and what is left of the input, and at least one byte. *)
Definition read_size (want free avail : nat) : nat :=
  (1 `max` (want `min` (free `min` avail)))%nat.

Inductive scan_result : Type :=
| Token (s : Scanner) (token : bytes)
| Stop (err : option scan_error).

(** The first part of a round of [Scanner.Scan]: with bytes in the
    buffer, or at the end of the input, the split function is called and
    the scanner advances; the results are the buffer afterwards and
    the token. *)
Definition try_split (split : SplitFunc) (s : Scanner)
  : scan_error + bytes * option bytes :=
  if bool_decide (s.(buf) ≠ []) || s.(eof) then
    let '(advance, token) := split s.(buf) s.(eof) in
    if decide (length s.(buf) < advance)%nat then inl ErrAdvanceTooFar
    else inr (drop advance s.(buf), token)
  else inr (s.(buf), None).

(** The loop of [Scanner.Scan]: try the split function; without a
    token, stop at the end of the input, fail with [ErrTooLong] when the
    buffer is full at its maximal size, and read more input otherwise.
    Every round without result reads input or meets its end, so
    [len(src) + 2] rounds are enough. *)
Fixpoint scan_loop (fuel : nat) (split : SplitFunc) (maxTokenSize : nat)
    (s : Scanner) : scan_result :=
  match fuel with
  | O => Stop (Some ErrNoProgress)
  | S fuel' =>
      match try_split split s with
      | inl e => Stop (Some e)
      | inr (buf', Some token) =>
          Token (mkScanner s.(src) s.(wanted) buf' s.(eof)) token
      | inr (buf', None) =>
          if s.(eof) then Stop None
          else if decide (maxTokenSize ≤ length buf')%nat then
            Stop (Some ErrTooLong)
          else
            match s.(src) with
            | [] =>
                scan_loop fuel' split maxTokenSize
                  (mkScanner [] s.(wanted) buf' true)
            | _ :: _ =>
                let n := read_size (default (length s.(src)) (head s.(wanted)))
                           (maxTokenSize - length buf') (length s.(src)) in
                scan_loop fuel' split maxTokenSize
                  (mkScanner (drop n s.(src)) (tail s.(wanted))
                     (buf' ++ take n s.(src)) false)
            end
      end
  end.

(** [Scanner.Scan]. *)
Definition Scan (split : SplitFunc) (maxTokenSize : nat) (s : Scanner)
  : scan_result :=
  scan_loop (S (S (length s.(src)))) split maxTokenSize s.

(** [for scanner.Scan() { ... scanner.Text() ... }] followed by
    [scanner.Err()]: the tokens in order and the final error.  [fuel]
    bounds the number of tokens. *)
Fixpoint scan_tokens (fuel : nat) (split : SplitFunc) (maxTokenSize : nat)
    (s : Scanner) : list bytes * option scan_error :=
  match fuel with
  | O => ([], Some ErrNoProgress)
  | S fuel' =>
      match Scan split maxTokenSize s with
      | Token s' token =>
          let '(tokens, err) := scan_tokens fuel' split maxTokenSize s' in
          (token :: tokens, err)
      | Stop err => ([], err)
      end
  end.

(** The split function of a delimiter, as a reference: the token ends
    at the first occurrence of [delim], which is consumed with it; at the
    end of the input the rest, when not empty, is the last token.
    [post] is applied to every token. *)
Definition delimited (delim : bytes) (post : bytes -> bytes) : SplitFunc :=
  fun data atEOF =>
    match Index data delim with
    | Some j => ((j + length delim)%nat, Some (post (take j data)))
    | None =>
        if atEOF && bool_decide (data ≠ []) then
          (length data, Some (post data))
        else (0%nat, None)
    end.

End bufio.

(* ------------------------------------------------------------------ *)
(** ** Package [pkg/runtime] (imported as [rt])                        *)
(* ------------------------------------------------------------------ *)

Module rt.

(** [type PT uint32]: the packet-type code of the wire header. *)
Abbreviation PT := N (only parsing).

(** Modelled from the spec: the file declaring the packet-type constants
    ([pkg/runtime/protocol.go]) is not among the sources.  The spec names
    the packet types and fixes the Gearman protocol as the compatibility
    target, whose numbering is used here. *)
Definition PT_CanDo : PT := 1.
Definition PT_CantDo : PT := 2.
Definition PT_ResetAbilities : PT := 3.
Definition PT_PreSleep : PT := 4.
Definition PT_Noop : PT := 6.
Definition PT_GrabJob : PT := 9.
Definition PT_NoJob : PT := 10.
Definition PT_JobAssign : PT := 11.
Definition PT_WorkStatus : PT := 12.
Definition PT_WorkComplete : PT := 13.
Definition PT_WorkFail : PT := 14.
Definition PT_EchoReq : PT := 16.
Definition PT_EchoRes : PT := 17.
Definition PT_Error : PT := 19.
Definition PT_SetClientId : PT := 22.
Definition PT_CanDoTimeout : PT := 23.
Definition PT_WorkException : PT := 25.
Definition PT_WorkData : PT := 28.
Definition PT_WorkWarning : PT := 29.
Definition PT_JobAssignUniq : PT := 31.

(** Modelled from the spec: "Minimum valid packet length: 12 bytes"
    (the constant [rt.MinPacketLength] is declared outside the sources;
    the comment in [decodeInPack] gives the same value). *)
Definition MinPacketLength : nat := 12.

(** Modelled from the spec: [rt.NewBuffer(l)], "writers allocate
    exact-sized buffers": a zeroed byte slice of length [l]. *)
Definition NewBuffer (l : nat) : bytes := replicate l NUL.

(** Modelled from the spec: "Three levels: LOW < NORMAL < HIGH" (the
    constants [rt.JobLow], [rt.JobNormal] and [rt.JobHigh] are declared
    outside the sources). *)
Inductive JobPriority : Type := JobLow | JobNormal | JobHigh.

End rt.

(* ------------------------------------------------------------------ *)
(** ** Package [worker]                                                *)
(* ------------------------------------------------------------------ *)

Module worker.
Import GoLib.

(** Go [error] values: the package's sentinels and [fmt.Errorf]
    results, kept as format and argument. *)
Inductive error : Type :=
| ErrNoneAgents
| ErrNoneFuncs
| ErrTimeOut
| ErrUnknown
| Errorf (format : String.string) (arg : bytes)
| RuntimeError (msg : String.string).

Arguments Errorf format%_string arg.
Arguments RuntimeError msg%_string.

#[global] Instance error_eq_dec : EqDecision error.
Proof. solve_decision. Defined.

(** An [*agent]: one server connection, known by its identity. *)
Definition agent : Type := nat.

(** Worker side job ([inpack.go]). *)
Record inPack : Type := mkInPack {
  dataType : rt.PT;
  data : bytes;
  handle : bytes;
  uniqueId : bytes;
  fn : bytes;
  a : option agent
}.

(** [getInPack]: [&inPack{}], all fields zero. *)
Definition getInPack : inPack :=
  {| dataType := 0; data := []; handle := []; uniqueId := [];
     fn := []; a := None |}.

(** Worker side outgoing packet; [getOutPack] returns the zero value. *)
Record outPack : Type := mkOutPack {
  out_dataType : rt.PT;
  out_data : bytes;
  out_handle : bytes
}.

Definition getOutPack : outPack :=
  {| out_dataType := 0; out_data := []; out_handle := [] |}.

#[global] Instance outPack_eq_dec : EqDecision outPack.
Proof. solve_decision. Defined.

(** Field assignments [inpack.x = v]. *)
Definition set_dataType (p : inPack) (v : rt.PT) : inPack :=
  mkInPack v p.(data) p.(handle) p.(uniqueId) p.(fn) p.(a).
Definition set_data (p : inPack) (v : bytes) : inPack :=
  mkInPack p.(dataType) v p.(handle) p.(uniqueId) p.(fn) p.(a).
Definition set_handle (p : inPack) (v : bytes) : inPack :=
  mkInPack p.(dataType) p.(data) v p.(uniqueId) p.(fn) p.(a).
Definition set_uniqueId (p : inPack) (v : bytes) : inPack :=
  mkInPack p.(dataType) p.(data) p.(handle) v p.(fn) p.(a).
Definition set_fn (p : inPack) (v : bytes) : inPack :=
  mkInPack p.(dataType) p.(data) p.(handle) p.(uniqueId) v p.(a).

Section decode.
(** [rt.NewPT] validates a packet-type code; it is declared outside the
    sources and is taken as given, with Go's two results. *)
Variable NewPT : N -> rt.PT * option error.

(** [decodeInPack]: decode job from byte slice.  The three results are
    the packet ([None] for a nil pointer), the number of bytes consumed
    and the error.  [int] is taken to be 64 bits wide, so the
    conversion of the 32-bit length is exact. *)
Definition decodeInPack (data : bytes)
  : option inPack * nat * option error :=
  if decide (length data < rt.MinPacketLength)%nat then
    (None, 0%nat, Some (Errorf "Invalid data: %v" data))
  else
    let dl := N.to_nat (Uint32 (slice data 8 12)) in
    if decide (length data < dl + rt.MinPacketLength)%nat then
      (None, 0%nat, Some (Errorf "Not enough data: %v" data))
    else
      let dt := slice data rt.MinPacketLength (dl + rt.MinPacketLength) in
      if decide (length dt ≠ dl) then
        (None, 0%nat, Some (Errorf "Invalid data: %v" data))
      else
        let inpack := getInPack in
        let '(pt, err) := NewPT (Uint32 (slice data 4 8)) in
        let inpack := set_dataType inpack pt in
        match err with
        | Some e => (Some inpack, 0%nat, Some e)
        | None =>
            let inpack :=
              if decide (pt = rt.PT_JobAssign) then
                match SplitN dt [NUL] 3 with
                | [s0; s1; s2] =>
                    set_data (set_fn (set_handle inpack s0) s1) s2
                | _ => inpack
                end
              else if decide (pt = rt.PT_JobAssignUniq) then
                match SplitN dt [NUL] 4 with
                | [s0; s1; s2; s3] =>
                    set_data
                      (set_uniqueId (set_fn (set_handle inpack s0) s1) s2)
                      s3
                | _ => inpack
                end
              else set_data inpack dt in
            (Some inpack, (dl + rt.MinPacketLength)%nat, None)
        end.
End decode.

(** *** [worker.go] *)

(** A [time.Duration]: nanoseconds. *)
Definition Duration : Type := N.
Definition Second : Duration := 1000000000.

(** The value a Go [panic] carries: an [error], or anything else. *)
Inductive panic_value : Type :=
| PanicError (e : error)
| PanicOther (v : bytes).

(** What one call of a user function does: it returns [(data, err)]
    after some time, panics after some time, or never returns. *)
Inductive behaviour : Type :=
| Returns (elapsed : Duration) (d : bytes) (e : option error)
| Panics (elapsed : Duration) (v : panic_value)
| Hangs.

(** [type JobFunc func(Job) ([]byte, error)]. *)
Definition JobFunc : Type := inPack -> behaviour.

(** The definition of the callback function. *)
Record jobFunc : Type := mkJobFunc {
  f : JobFunc;
  timeout : N (* uint32 *)
}.

(** inner result *)
Record result : Type := mkResult {
  r_data : bytes;
  r_err : option error
}.

(** The observable actions of the worker: a packet handed to an agent
    ([agent.write] / [agent.Write]) and a connection attempt
    ([agent.Connect]).  The agent itself ([worker/agent.go]) is outside
    the sources; its calls are recorded, in program order. *)
Inductive event : Type :=
| EWrite (ag : agent) (p : outPack)
| EConnect (ag : agent).

(** The packets of a trace that went to agent [ag]. *)
Definition written_to (ag : agent) (tr : list event) : list outPack :=
  omap (fun e => match e with
                 | EWrite ag' p => if decide (ag' = ag) then Some p else None
                 | EConnect _ => None
                 end) tr.

(** All packets written in a trace. *)
Definition writes (tr : list event) : list (agent * outPack) :=
  omap (fun e => match e with
                 | EWrite ag p => Some (ag, p)
                 | EConnect _ => None
                 end) tr.

(** The fields of [Worker] the modelled methods read or write.  [once]
    is the done flag of the [sync.Once]; [activeJobs] the counter of the
    [sync.WaitGroup].  The mutex, the [in] channel, the [limit]
    semaphore and the two handler callbacks belong to the concurrent
    plumbing and are not part of the state. *)
Record Worker : Type := mkWorker {
  agents : list agent;
  funcs : gmap bytes jobFunc;
  running : bool;
  ready : bool;
  shuttingDown : bool;
  activeJobs : nat;
  once : bool
}.

(** [New]: no agents, no functions, all flags false. *)
Definition New : Worker :=
  {| agents := []; funcs := ∅; running := false; ready := false;
     shuttingDown := false; activeJobs := 0%nat; once := false |}.

Definition set_funcs (w : Worker) (m : gmap bytes jobFunc) : Worker :=
  mkWorker w.(agents) m w.(running) w.(ready) w.(shuttingDown)
    w.(activeJobs) w.(once).
Definition set_running (w : Worker) (b : bool) : Worker :=
  mkWorker w.(agents) w.(funcs) b w.(ready) w.(shuttingDown)
    w.(activeJobs) w.(once).
Definition set_ready (w : Worker) (b : bool) : Worker :=
  mkWorker w.(agents) w.(funcs) w.(running) b w.(shuttingDown)
    w.(activeJobs) w.(once).
Definition set_activeJobs (w : Worker) (n : nat) : Worker :=
  mkWorker w.(agents) w.(funcs) w.(running) w.(ready) w.(shuttingDown)
    n w.(once).
Definition set_once (w : Worker) (b : bool) : Worker :=
  mkWorker w.(agents) w.(funcs) w.(running) w.(ready) w.(shuttingDown)
    w.(activeJobs) b.

(** [AddServer] appends the new agent (connection set-up aside). *)
Definition AddServer (w : Worker) (ag : agent) : Worker :=
  mkWorker (w.(agents) ++ [ag]) w.(funcs) w.(running) w.(ready)
    w.(shuttingDown) w.(activeJobs) w.(once).

(** Broadcast an outpack to all Gearman server. *)
Definition broadcast (w : Worker) (outpack : outPack) : list event :=
  map (fun v => EWrite v outpack) w.(agents).

Definition prepFuncOutpack (funcname : bytes) (timeout : N) : outPack :=
  let outpack := getOutPack in
  if decide (timeout = 0) then
    {| out_dataType := rt.PT_CanDo; out_data := funcname;
       out_handle := outpack.(out_handle) |}
  else
    let l := length funcname in
    let data := rt.NewBuffer (l + 5) in
    let data := copy data funcname in
    let data := <[l := NUL]> data in
    let data := copy_at data (l + 1) (PutUint32 timeout) in
    {| out_dataType := rt.PT_CanDoTimeout; out_data := data;
       out_handle := outpack.(out_handle) |}.

(** inner add *)
Definition addFunc (w : Worker) (funcname : bytes) (timeout : N)
  : list event :=
  broadcast w (prepFuncOutpack funcname timeout).

(** Add a function.  Results: the worker afterwards, the actions
    performed, the returned error. *)
Definition AddFunc (w : Worker) (funcname : bytes) (f : JobFunc)
    (timeout : N) : Worker * list event * option error :=
  match w.(funcs) !! funcname with
  | Some _ =>
      (w, [], Some (Errorf "The function already exists: %s" funcname))
  | None =>
      let w' := set_funcs w (<[funcname := mkJobFunc f timeout]> w.(funcs)) in
      if w'.(running) then (w', addFunc w' funcname timeout, None)
      else (w', [], None)
  end.

(** inner remove *)
Definition removeFunc (w : Worker) (funcname : bytes) : list event :=
  broadcast w {| out_dataType := rt.PT_CantDo; out_data := funcname;
                 out_handle := getOutPack.(out_handle) |}.

(** Remove a function. *)
Definition RemoveFunc (w : Worker) (funcname : bytes)
  : Worker * list event * option error :=
  match w.(funcs) !! funcname with
  | None =>
      (w, [], Some (Errorf "The function does not exist: %s" funcname))
  | Some _ =>
      let w' := set_funcs w (delete funcname w.(funcs)) in
      if w'.(running) then (w', removeFunc w' funcname, None)
      else (w', [], None)
  end.

(** [for _, a := range worker.agents { if err = a.Connect(); err != nil
    { return } }]: [conn] tells how each connection attempt ends. *)
Fixpoint connect_all (conn : agent -> option error) (ags : list agent)
  : list event * option error :=
  match ags with
  | [] => ([], None)
  | ag :: rest =>
      match conn ag with
      | Some e => ([EConnect ag], Some e)
      | None =>
          let '(tr, e) := connect_all conn rest in (EConnect ag :: tr, e)
      end
  end.

(** [for funcname, f := range worker.funcs { worker.addFunc(funcname,
    f.timeout) }].  Go leaves the iteration order of a map open: [order]
    is the order the runtime picks, a permutation of the entries of
    [worker.funcs]. *)
Definition register_all (w : Worker) (order : list (bytes * jobFunc))
  : list event :=
  flat_map (fun '(funcname, jf) => addFunc w funcname jf.(timeout)) order.

(** Connect to Gearman server and tell every server what can this
    worker do. *)
Definition Ready (w : Worker) (conn : agent -> option error)
    (order : list (bytes * jobFunc))
  : Worker * list event * option error :=
  if decide (length w.(agents) = 0%nat) then (w, [], Some ErrNoneAgents)
  else if decide (size w.(funcs) = 0%nat) then (w, [], Some ErrNoneFuncs)
  else
    match connect_all conn w.(agents) with
    | (tr, Some e) => (w, tr, Some e)
    | (tr, None) =>
        (* `once` protects registering worker functions multiple times. *)
        let '(w1, tr1) :=
          if w.(once) then (w, [])
          else (set_once w true, register_all w order) in
        (set_ready w1 true, tr ++ tr1, None)
    end.

(** executing timer.  The user function runs in its own goroutine and
    the caller selects between its result and [time.After(timeout)].  A
    result sent before the timer fires wins, the timer wins over a later
    one; when both are ready at the same instant [select] picks either
    ([tie] is its pick).  A panic in the goroutine is recovered there and
    nothing is sent, so the timer fires. *)
Definition execTimeout (tie : bool) (f : JobFunc) (job : inPack)
    (timeout : Duration) : result :=
  let timed_out := {| r_data := []; r_err := Some ErrTimeOut |} in
  match f job with
  | Returns elapsed d e =>
      if decide (elapsed < timeout) then {| r_data := d; r_err := e |}
      else if decide (elapsed = timeout) then
        if tie then {| r_data := d; r_err := e |} else timed_out
      else timed_out
  | Panics _ _ => timed_out
  | Hangs => timed_out
  end.

(** How a call ends for its caller. *)
Inductive completion (A : Type) : Type :=
| Done (x : A)
| Panicked (v : panic_value)
| Blocked.
Arguments Done {A} x.
Arguments Panicked {A} v.
Arguments Blocked {A}.

(** Lines 343-348 of [exec]: the call of the user function, directly
    when the function has no timeout, through [execTimeout] otherwise. *)
Definition call (tie : bool) (jf : jobFunc) (inpack : inPack)
  : completion result :=
  if decide (jf.(timeout) = 0) then
    match jf.(f) inpack with
    | Returns _ d e => Done {| r_data := d; r_err := e |}
    | Panics _ v => Panicked v
    | Hangs => Blocked
    end
  else Done (execTimeout tie jf.(f) inpack (jf.(timeout) * Second)).

(** The packet [exec] builds from a result (lines 350-362). *)
Definition result_outpack (inpack : inPack) (r : result) : outPack :=
  let dataType :=
    match r.(r_err) with
    | None => rt.PT_WorkComplete
    | Some _ =>
        if decide (length r.(r_data) = 0%nat) then rt.PT_WorkFail
        else rt.PT_WorkException
    end in
  {| out_dataType := dataType; out_data := r.(r_data);
     out_handle := inpack.(handle) |}.

(** inner job executing.  Results, when [exec] returns: the worker
    afterwards, the actions performed, the returned error.  The deferred
    function undoes [activeJobs.Add(1)] and turns a panic into the
    returned error. *)
Definition exec (w : Worker) (tie : bool) (inpack : inPack)
  : completion (Worker * list event * option error) :=
  let w1 := set_activeJobs w (w.(activeJobs) + 1) in
  let deferred (tr : list event) (err : option error) :=
    Done (set_activeJobs w1 (w1.(activeJobs) - 1), tr, err) in
  let recovered (v : panic_value) :=
    match v with
    | PanicError e => Some e
    | PanicOther _ => Some ErrUnknown
    end in
  if w1.(shuttingDown) then deferred [] None
  else
    match w1.(funcs) !! inpack.(fn) with
    | None =>
        deferred []
          (Some (Errorf "The function does not exist: %s" inpack.(fn)))
    | Some jf =>
        match call tie jf inpack with
        | Blocked => Blocked
        | Panicked v => deferred [] (recovered v)
        | Done r =>
            if w1.(running) then
              let outpack := result_outpack inpack r in
              match inpack.(a) with
              | Some ag => deferred [EWrite ag outpack] r.(r_err)
              | None =>
                  (* a method call through the nil agent pointer *)
                  deferred []
                    (recovered (PanicError
                       (RuntimeError "invalid memory address or nil pointer dereference")))
              end
            else deferred [] None
        end
    end.

(** [reRegisterFuncsForAgent]: every function of the table, in the
    order [order] the map iteration takes, prepared and written to [ag]. *)
Definition reRegisterFuncsForAgent (w : Worker) (ag : agent)
    (order : list (bytes * jobFunc)) : list event :=
  map (fun '(funcname, jf) =>
         EWrite ag (prepFuncOutpack funcname jf.(timeout))) order.

(** *** Notions used to state the properties *)

(** An instance of [rt.NewPT] for the examples: it accepts the codes 1
    to 36 of the Gearman protocol. *)
Definition NewPT_gearman (cmd : N) : rt.PT * option error :=
  if decide (1 <= cmd <= 36) then (cmd, None)
  else (cmd, Some (Errorf "Invalid packet type" [])).

(** The payload length a header declares. *)
Definition declared_length (data : bytes) : nat :=
  N.to_nat (Uint32 (slice data 8 12)).

(** What "no result within the timeout" means for a call: the function
    returns later than that, panics, or never returns. *)
Definition no_result_within (timeout : Duration) (b : behaviour) : Prop :=
  match b with
  | Returns elapsed _ _ => timeout < elapsed
  | Panics _ _ => True
  | Hangs => True
  end.

(** One call of [Ready]: how the connection attempts end and the order
    the map iteration takes, should the registration run. *)
Record ready_call : Type := mkReadyCall {
  rc_conn : agent -> option error;
  rc_order : list (bytes * jobFunc)
}.

(** A sequence of calls of [Ready] on one worker; for every call, the
    actions it performed and the error it returned. *)
Fixpoint Ready_calls (w : Worker) (calls : list ready_call)
  : Worker * list (list event * option error) :=
  match calls with
  | [] => (w, [])
  | c :: rest =>
      let '(w1, tr, err) := Ready w c.(rc_conn) c.(rc_order) in
      let '(w2, results) := Ready_calls w1 rest in
      (w2, (tr, err) :: results)
  end.

(** The broadcast of the function table: for every function, in
    iteration order, its registration packet to every agent. *)
Definition broadcast_packets (w : Worker) (order : list (bytes * jobFunc))
  : list (agent * outPack) :=
  flat_map (fun '(funcname, jf) =>
              map (fun ag => (ag, prepFuncOutpack funcname jf.(timeout)))
                w.(agents)) order.

(** The three ways a call of [Ready] ends. *)
Inductive Ready_spec (w : Worker) (order : list (bytes * jobFunc))
  : Worker * list event * option error -> Prop :=
| Ready_failed tr e :
    writes tr = [] → Ready_spec w order (w, tr, Some e)
| Ready_first tr :
    w.(once) = false → writes tr = broadcast_packets w order →
    Ready_spec w order (set_ready (set_once w true) true, tr, None)
| Ready_again tr :
    w.(once) = true → writes tr = [] →
    Ready_spec w order (set_ready w true, tr, None).

(** The value four big-endian bytes stand for. *)
Definition be32_value (b0 b1 b2 b3 : byte) : N :=
  Byte.to_N b0 * 2 ^ 24 + Byte.to_N b1 * 2 ^ 16
  + Byte.to_N b2 * 2 ^ 8 + Byte.to_N b3.

(** The packets one pass over the function table prepares. *)
Definition table_packets (entries : list (bytes * jobFunc)) : list outPack :=
  map (fun '(funcname, jf) => prepFuncOutpack funcname jf.(timeout)) entries.

End worker.

(* ------------------------------------------------------------------ *)
(** ** Package [cmd]: the worker command                               *)
(* ------------------------------------------------------------------ *)

Module cmd.
Import GoLib.

(** Errors built with [fmt.Errorf]: the format and the text of the
    wrapped error, if any. *)
Inductive error : Type :=
| Errorf (format : String.string) (cause : bytes).
Arguments Errorf format%_string cause.

(** How a call ends for its caller: it returns, or it blocks for ever
    (a read from a pipe nobody writes to). *)
Inductive completion (A : Type) : Type :=
| Done (x : A)
| Blocked.
Arguments Done {A} x.
Arguments Blocked {A}.

(** *** [worker.go]: the persistent subprocess *)

(** The subprocess and its pipes as one job invocation finds them:
    whether the process is known to have exited; how the coming writes
    to its stdin end ([None]: the write succeeds; writes beyond the list
    succeed); the bytes the command sends to its stdout from now on, and
    whether the stream ends after them (a read past the end of an open,
    silent pipe blocks). *)
Record subprocess : Type := mkSubprocess {
  exited : bool;
  write_results : list (option bytes);
  stdout : bytes;
  stdout_eof : bool
}.

(** The I/O one invocation performs, in program order. *)
Inductive io : Type :=
| Write (b : bytes)
| ReadString (line : bytes).

(** The lines read from stdout in a trace. *)
Definition reads (tr : list io) : list bytes :=
  omap (fun e => match e with
                 | ReadString l => Some l
                 | Write _ => None
                 end) tr.

(** The bytes written to stdin in a trace. *)
Definition written (tr : list io) : bytes :=
  flat_map (fun e => match e with
                     | Write b => b
                     | ReadString _ => []
                     end) tr.

(** Lines 253-266: the loop over [inputLines].  [out] is what is left of
    the command's stdout, [results] and [tr] what has been collected so
    far.  [reader.ReadString('\n')] returns the bytes up to and including
    the first newline; without a newline it fails at the end of the
    stream and blocks on a silent pipe. *)
Fixpoint read_lines (inputLines : list bytes) (out : bytes) (eof : bool)
    (results : list bytes) (tr : list io)
  : completion (list io * bytes * option error) :=
  match inputLines with
  | [] => Done (tr, Join results [LF], None)
  | inputLine :: rest =>
      if decide (inputLine = []) then read_lines rest out eof results tr
      else
        match IndexByte out LF with
        | Some i =>
            let line := take (S i) out in
            read_lines rest (drop (S i) out) eof
              (results ++ [TrimSuffix line [LF]]) (tr ++ [ReadString line])
        | None =>
            if eof then
              Done (tr, [], Some (Errorf "failed to read from stdout: %v"
                                    (B "EOF")))
            else Blocked
        end
  end.

(** [processJobWithPersistentSubprocess]: the I/O performed and the two
    results (a nil byte slice is the empty one). *)
Definition processJobWithPersistentSubprocess (p : subprocess)
    (data : bytes) : completion (list io * bytes * option error) :=
  (* Read the response line by line until we get the expected number of
     lines *)
  let respond (tr : list io) :=
    let inputLines := Split (TrimSpace data) [LF] in
    read_lines inputLines p.(stdout) p.(stdout_eof) [] tr in
  (* Check if subprocess is still running *)
  if p.(exited) then Done ([], [], Some (Errorf "subprocess has exited" []))
  else
    (* Send data to subprocess *)
    match p.(write_results) !! 0%nat with
    | Some (Some e) =>
        Done ([], [], Some (Errorf "failed to write to stdin: %v" e))
    | _ =>
        (* Add a newline if the data doesn't end with one *)
        if HasSuffix data [LF] then respond [Write data]
        else
          match p.(write_results) !! 1%nat with
          | Some (Some e) =>
              Done ([Write data], [],
                    Some (Errorf "failed to write newline to stdin: %v" e))
          | _ => respond [Write data; Write [LF]]
          end
    end.

(** *** [client.go]: the client command *)

(** The flags of the client command. *)
Record flags : Type := mkFlags {
  delimiter : bytes;
  timeout : N; (* time.Duration *)
  priority : bytes
}.

(** Lines 106-110: the search [for j := 0; j <= len(data)-i; j++] for
    the first position at which [data[j:j+i]] is the delimiter; [count]
    is the number of positions left to try. *)
Fixpoint search_delimiter (delimiter data : bytes) (j count : nat)
  : option nat :=
  match count with
  | O => None
  | S count' =>
      if decide (slice data j (j + length delimiter) = delimiter)
      then Some j
      else search_delimiter delimiter data (S j) count'
  end.

(** The split function [runClient] installs for a custom delimiter
    (lines 101-116). *)
Definition delimiterSplit (delimiter : bytes) : bufio.SplitFunc :=
  fun data atEOF =>
    if atEOF && bool_decide (length data = 0%nat) then (0%nat, None)
    else
      let i := length delimiter in
      let found :=
        if decide (0 < i)%nat then
          search_delimiter delimiter data 0 (S (length data) - i)
        else None in
      match found with
      | Some j => ((j + i)%nat, Some (take j data))
      | None =>
          if atEOF then (length data, Some data) else (0%nat, None)
      end.

(** What becomes of a job handed to [c.Do]: the submission fails, or the
    job is created and then completes, fails, raises an exception, or
    gives no terminal response before the timeout. *)
Inductive job_outcome : Type :=
| Complete (d : bytes)
| Fail
| Exception (d : bytes)
| NoResponse.

Inductive do_result : Type :=
| DoError (e : bytes)
| DoCreated (o : job_outcome).

(** The messages printed to stderr. *)
Inductive message : Type :=
| JobFailed                      (* "Job error: job failed" *)
| JobException (d : bytes)       (* "Job error: job exception: %s" *)
| JobTimeout (timeout : N).      (* "Job timeout after %v" *)

(** What the command does, in program order: a call of [c.Do], a line
    on stdout, a message on stderr. *)
Inductive action : Type :=
| Submit (funcName payload : bytes) (p : rt.JobPriority)
| Stdout (line : bytes)
| Stderr (m : message).

(** Lines 148-157: the report on a created job. *)
Definition report (timeout : N) (o : job_outcome) : action :=
  match o with
  | Complete d => Stdout (d ++ [LF])       (* fmt.Println *)
  | Fail => Stderr JobFailed
  | Exception d => Stderr (JobException d)
  | NoResponse => Stderr (JobTimeout timeout)
  end.

(** Lines 120-158: the loop over the tokens of the scanner.  [server]
    tells what becomes of the [k]-th job handed to [c.Do]. *)
Fixpoint submit_tokens (funcName : bytes) (jobPriority : rt.JobPriority)
    (timeout : N) (server : nat -> bytes -> do_result) (k : nat)
    (tokens : list bytes) : list action * option error :=
  match tokens with
  | [] => ([], None)
  | line :: rest =>
      if decide (line = []) then
        submit_tokens funcName jobPriority timeout server k rest
      else
        match server k line with
        | DoError e =>
            ([Submit funcName line jobPriority],
             Some (Errorf "error submitting job: %w" e))
        | DoCreated o =>
            let '(acts, err) :=
              submit_tokens funcName jobPriority timeout server (S k) rest in
            (Submit funcName line jobPriority :: report timeout o :: acts,
             err)
        end
  end.

(** Lines 85-94: determine job priority. *)
Definition jobPriority_of (priority : bytes) : rt.JobPriority :=
  if decide (priority = B "low") then rt.JobLow
  else if decide (priority = B "high") then rt.JobHigh
  else rt.JobNormal.

(** [runClient]: the actions performed and the returned error.
    [connect] is the error of [client.New], if any; [wanted] the sizes
    in which stdin arrives.  The scanner can hold no more tokens than
    stdin has bytes. *)
Definition runClient (fl : flags) (funcName : bytes)
    (connect : option bytes) (server : nat -> bytes -> do_result)
    (stdin : bytes) (wanted : list nat) : list action * option error :=
  match connect with
  | Some e => ([], Some (Errorf "failed to connect to server %s: %w" e))
  | None =>
      let jobPriority := jobPriority_of fl.(priority) in
      (* Set custom delimiter if specified *)
      let split :=
        if decide (fl.(delimiter) ≠ [LF]) then delimiterSplit fl.(delimiter)
        else bufio.ScanLines in
      let '(tokens, scan_err) :=
        bufio.scan_tokens (S (length stdin)) split bufio.MaxScanTokenSize
          (bufio.NewScanner stdin wanted) in
      match submit_tokens funcName jobPriority fl.(timeout) server 0 tokens
      with
      | (acts, Some e) => (acts, Some e)
      | (acts, None) =>
          match scan_err with
          | Some _ =>
              (acts, Some (Errorf "error reading from stdin: %w" []))
          | None => (acts, None)
          end
      end
  end.

(** The actions for a list of jobs, the first of which is the [k]-th
    job of the run. *)
Definition job_actions (funcName : bytes) (p : rt.JobPriority)
    (timeout : N) (outcomes : nat -> bytes -> job_outcome) (k : nat)
    (payloads : list bytes) : list action :=
  concat (imap (fun i payload =>
                  [Submit funcName payload p;
                   report timeout (outcomes (k + i)%nat payload)])
            payloads).

(** The payloads handed to [c.Do], in order. *)
Definition submitted (acts : list action) : list bytes :=
  omap (fun x => match x with
                 | Submit _ payload _ => Some payload
                 | _ => None
                 end) acts.

(** The tokens of an input in the words of the description of the
    client command: the input split by the delimiter, empty tokens
    skipped. *)
Definition delimited_tokens (delimiter stdin : bytes) : list bytes :=
  filter (fun t => t ≠ []) (Split stdin delimiter).

(** The stream that consists of the given lines, each ended by a
    newline. *)
Definition line_stream (lines : list bytes) : bytes :=
  flat_map (fun l => l ++ [LF]) lines.

(** The non-empty lines of a payload, in the words of the description
    of the worker command: the payload split at newlines, empty pieces
    left out. *)
Definition nonempty_lines (payload : bytes) : list bytes :=
  filter (fun l => l ≠ []) (Split payload [LF]).

End cmd.

(* ------------------------------------------------------------------ *)
(** ** Package [worker]: the job methods and the worker's life cycle    *)
(* ------------------------------------------------------------------ *)

(** [strconv.Itoa]. *)
Module strconv.

(** The decimal digits of [n], most significant first, in front of [acc];
    [fuel] bounds their number. *)
Fixpoint digits (fuel : nat) (n : N) (acc : bytes) : bytes :=
  match fuel with
  | O => acc
  | S fuel' =>
      let acc' := byte_of (48 + n mod 10) :: acc in
      if decide (n < 10) then acc' else digits fuel' (n / 10) acc'
  end.

(** [strconv.Itoa(i)]: the decimal text of [i], with a minus sign for a
    negative number.  A number has no more decimal digits than bits. *)
Definition Itoa (i : Z) : bytes :=
  match i with
  | Z0 => digits 1 0 []
  | Zpos p => digits (S (N.to_nat (N.log2 (Npos p)))) (Npos p) []
  | Zneg p => "-"%byte :: digits (S (N.to_nat (N.log2 (Npos p)))) (Npos p) []
  end.

(** The number a sequence of decimal digits stands for. *)
Definition decimal_value (ds : bytes) : N :=
  fold_left (fun v b => 10 * v + (Byte.to_N b - 48)) ds 0.

End strconv.

Module jobs.
Import GoLib worker.

(** *** [error.go] *)

(** The two errors of [getError], kept as format and arguments:
    [fmt.Errorf("Not a error data: %v", data)] and
    [fmt.Errorf("%s: %s", rel[0], rel[1])]. *)
Inductive packet_error : Type :=
| NotErrorData (data : bytes)
| ErrorText (code text : bytes).

(** Extract the error message. *)
Definition getError (data : bytes) : packet_error :=
  match SplitN data [NUL] 2 with
  | [rel0; rel1] => ErrorText rel0 rel1
  | _ => NotErrorData data
  end.

(** *** [inpack.go]: the methods of a job *)

(** [inPack.Err]: [None] is the nil error. *)
Definition Err (inpack : inPack) : option packet_error :=
  if decide (inpack.(dataType) = rt.PT_Error) then
    Some (getError inpack.(data))
  else None.

(** The write through the job's agent, [inpack.a.write(outpack)]; a job
    without agent has a nil pointer there and the call panics ([None]). *)
Definition write_to_agent (inpack : inPack) (outpack : outPack)
  : option event :=
  (fun ag => EWrite ag outpack) <$> inpack.(a).

(** Send some datas to client. *)
Definition SendData (inpack : inPack) (data : bytes) : option event :=
  let hl := length inpack.(handle) in
  let l := (hl + length data + 1)%nat in
  let buf := rt.NewBuffer l in
  let buf := copy buf inpack.(handle) in
  let buf := copy_at buf (hl + 1) data in
  write_to_agent inpack
    {| out_dataType := rt.PT_WorkData; out_data := buf;
       out_handle := getOutPack.(out_handle) |}.

Definition SendWarning (inpack : inPack) (data : bytes) : option event :=
  let hl := length inpack.(handle) in
  let l := (hl + length data + 1)%nat in
  let buf := rt.NewBuffer l in
  let buf := copy buf inpack.(handle) in
  let buf := copy_at buf (hl + 1) data in
  write_to_agent inpack
    {| out_dataType := rt.PT_WorkWarning; out_data := buf;
       out_handle := getOutPack.(out_handle) |}.

(** Update status.  [numerator] and [denominator] are Go [int]s. *)
Definition UpdateStatus (inpack : inPack) (numerator denominator : Z)
  : option event :=
  let n := strconv.Itoa numerator in
  let d := strconv.Itoa denominator in
  let hl := length inpack.(handle) in
  let nl := length n in
  let dl := length d in
  let buf := rt.NewBuffer (hl + nl + dl + 2) in
  let buf := copy buf inpack.(handle) in
  let buf := copy_at buf (hl + 1) n in
  let buf := copy_at buf (hl + nl + 2) d in
  write_to_agent inpack
    {| out_dataType := rt.PT_WorkStatus; out_data := buf;
       out_handle := getOutPack.(out_handle) |}.

(** The packet of a write. *)
Definition written_packet (e : option event) : option outPack :=
  e ≫= fun ev => match ev with
                 | EWrite _ p => Some p
                 | EConnect _ => None
                 end.

End jobs.

Module lifecycle.
Import worker.

Definition set_shuttingDown (w : Worker) (b : bool) : Worker :=
  mkWorker w.(agents) w.(funcs) w.(running) w.(ready) b w.(activeJobs)
    w.(once).

(** Main loop, up to the point where it starts to receive packets: the
    worker readies itself if [Ready] has not been run (a failure there is
    a panic), is marked running, and asks every server for a job.  Results:
    the worker at the head of the loop, the actions of [Ready], the agents
    asked to grab. *)
Definition Work (w : Worker) (conn : agent -> option error)
    (order : list (bytes * jobFunc))
  : completion (Worker * list event * list agent) :=
  let '(w1, tr, err) :=
    if w.(ready) then (w, [], None) else Ready w conn order in
  match err with
  | Some e => Panicked (PanicError e)
  | None => Done (set_running w1 true, tr, w1.(agents))
  end.

(** Close connection and exit main loop: the worker afterwards and the
    agents that were closed. *)
Definition Close (w : Worker) : Worker * list agent :=
  if w.(running) then (set_running w false, w.(agents)) else (w, []).

(** Remove all of functions.  Both from the worker and job servers. *)
Definition Reset (w : Worker) : Worker * list event :=
  (set_funcs w ∅,
   broadcast w {| out_dataType := rt.PT_ResetAbilities;
                  out_data := getOutPack.(out_data);
                  out_handle := getOutPack.(out_handle) |}).

(** [Shutdown]: mark the worker as shutting down, wait for the active
    jobs, close.  With jobs still active the wait can only be ended by
    them; on its own the call does not return. *)
Definition Shutdown (w : Worker) : completion (Worker * list agent) :=
  let w1 := set_shuttingDown w true in
  if decide (w1.(activeJobs) = 0%nat) then Done (Close w1) else Blocked.

(** The connection attempts of a trace, in order. *)
Definition connects (tr : list event) : list agent :=
  omap (fun e => match e with
                 | EConnect ag => Some ag
                 | EWrite _ _ => None
                 end) tr.

(** The packet [removeFunc] broadcasts. *)
Definition cantDo (funcname : bytes) : outPack :=
  {| out_dataType := rt.PT_CantDo; out_data := funcname; out_handle := [] |}.

End lifecycle.

(* ------------------------------------------------------------------ *)
(** ** Package [cmd]: the job handler of the worker command             *)
(* ------------------------------------------------------------------ *)

Module handler.
Import GoLib cmd.

(** What happens to the subprocess a job starts in EOF mode: the error,
    if any, of each step, and what the command writes to stdout and
    stderr. *)
Record subprocess_run : Type := mkRun {
  stdin_pipe_err : option bytes;
  stdout_pipe_err : option bytes;
  stderr_pipe_err : option bytes;
  start_err : option bytes;
  write_err : option bytes;
  run_stdout : bytes;
  read_err : option bytes;
  run_stderr : bytes;
  wait_err : option bytes
}.

(** [processJobWithNewSubprocess]: the two results. *)
Definition processJobWithNewSubprocess (r : subprocess_run) (data : bytes)
  : bytes * option error :=
  match r.(stdin_pipe_err) with
  | Some e => ([], Some (Errorf "failed to create stdin pipe: %v" e))
  | None =>
  match r.(stdout_pipe_err) with
  | Some e => ([], Some (Errorf "failed to create stdout pipe: %v" e))
  | None =>
  match r.(stderr_pipe_err) with
  | Some e => ([], Some (Errorf "failed to create stderr pipe: %v" e))
  | None =>
  match r.(start_err) with
  | Some e => ([], Some (Errorf "failed to start command: %v" e))
  | None =>
  (* Send data to stdin and close (EOF) *)
  match r.(write_err) with
  | Some e => ([], Some (Errorf "failed to write to stdin: %v" e))
  | None =>
  (* Read output *)
  match r.(read_err) with
  | Some e => ([], Some (Errorf "failed to read stdout: %v" e))
  | None =>
  (* Wait for command to finish *)
  match r.(wait_err) with
  | Some e =>
      if decide (0 < length r.(run_stderr))%nat then
        ([], Some (Errorf "command failed: %v, stderr: %s"
                     (e ++ r.(run_stderr))))
      else ([], Some (Errorf "command failed: %v" e))
  | None => (r.(run_stdout), None)
  end end end end end end end.

(** What the handler of [createJobHandler] meets when a job arrives: in
    EOF mode the run of a new subprocess; otherwise the persistent
    subprocess, or the error with which it failed to start. *)
Inductive environment : Type :=
| EofMode (r : subprocess_run)
| PersistentFailed (e : bytes)
| Persistent (p : subprocess).

(** A [cmd] error as the [error] the worker sees. *)
Definition as_worker_error (e : error) : worker.error :=
  match e with
  | Errorf format cause => worker.Errorf format cause
  end.

(** The job function [createJobHandler] returns, on one job; [elapsed] is
    the time the job takes. *)
Definition createJobHandler (env : environment) (elapsed : N)
  : worker.JobFunc :=
  fun job =>
    match env with
    | PersistentFailed e =>
        worker.Returns elapsed []
          (Some (worker.Errorf
                   "failed to initialize persistent subprocess: %v" e))
    | EofMode r =>
        let '(d, e) := processJobWithNewSubprocess r job.(worker.data) in
        worker.Returns elapsed d (as_worker_error <$> e)
    | Persistent p =>
        match processJobWithPersistentSubprocess p job.(worker.data) with
        | Done (_, d, e) => worker.Returns elapsed d (as_worker_error <$> e)
        | Blocked => worker.Hangs
        end
    end.

End handler.

(* ------------------------------------------------------------------ *)
(** ** Values for the examples                                         *)
(* ------------------------------------------------------------------ *)

(** A JOB_ASSIGN packet for handle [H:1], function [rev] and data [ab],
    followed by the first byte of the next packet. *)
Definition job_assign_packet : bytes :=
  [NUL] ++ B "RES" ++ [NUL; NUL; NUL; byte_of 11] ++
  [NUL; NUL; NUL; byte_of 10] ++
  B "H:1" ++ [NUL] ++ B "rev" ++ [NUL] ++ B "ab" ++ [NUL].

(** A worker for the examples: one server, three functions, running. *)
Definition echo : worker.JobFunc :=
  fun job => worker.Returns 1000 job.(worker.data) None.
Definition sleepy : worker.JobFunc :=
  fun job => worker.Returns (3 * worker.Second) job.(worker.data) None.
Definition boom : worker.JobFunc :=
  fun job => worker.Panics 1000 (worker.PanicOther (B "boom")).

Definition example_worker : worker.Worker :=
  {| worker.agents := [7%nat];
     worker.funcs :=
       {[ B "rev" := worker.mkJobFunc echo 0;
          B "slow" := worker.mkJobFunc sleepy 1;
          B "boom" := worker.mkJobFunc boom 0 ]};
     worker.running := true; worker.ready := true;
     worker.shuttingDown := false; worker.activeJobs := 0%nat;
     worker.once := true |}.

Definition example_job (fnm : bytes) : worker.inPack :=
  {| worker.dataType := rt.PT_JobAssign; worker.data := B "ab";
     worker.handle := B "H:1"; worker.uniqueId := []; worker.fn := fnm;
     worker.a := Some 7%nat |}.

(** A worker that has not been readied yet, and three calls of [Ready]:
    the first cannot connect, the other two can. *)
Definition fresh_worker : worker.Worker :=
  {| worker.agents := [7%nat];
     worker.funcs :=
       {[ B "rev" := worker.mkJobFunc echo 0;
          B "slow" := worker.mkJobFunc sleepy 1 ]};
     worker.running := false; worker.ready := false;
     worker.shuttingDown := false; worker.activeJobs := 0%nat;
     worker.once := false |}.

Definition refused : worker.ready_call :=
  {| worker.rc_conn := fun _ => Some (worker.Errorf "connection refused" []);
     worker.rc_order := map_to_list fresh_worker.(worker.funcs) |}.
Definition accepted : worker.ready_call :=
  {| worker.rc_conn := fun _ => None;
     worker.rc_order := map_to_list fresh_worker.(worker.funcs) |}.

(** A payload whose second line is a single space, and a subprocess that
    answers it like [cat]: one output line for each of the two lines. *)
Definition blank_tail_payload : bytes := B "a" ++ [LF] ++ B " " ++ [LF].
Definition cat_subprocess : cmd.subprocess :=
  {| cmd.exited := false; cmd.write_results := [];
     cmd.stdout := blank_tail_payload; cmd.stdout_eof := false |}.

(** A payload of two lines without final newline, and a subprocess that
    answers it like [rev]. *)
Definition two_line_payload : bytes := B "ab" ++ [LF] ++ B "cd".
Definition rev_subprocess : cmd.subprocess :=
  {| cmd.exited := false; cmd.write_results := [];
     cmd.stdout := B "ba" ++ [LF] ++ B "dc" ++ [LF];
     cmd.stdout_eof := false |}.

(** The flags of the client command at their defaults, and a server on
    which every job completes with its payload as result. *)
Definition default_flags : cmd.flags :=
  {| cmd.delimiter := [LF]; cmd.timeout := 30 * worker.Second;
     cmd.priority := B "normal" |}.
Definition echo_server : nat -> bytes -> cmd.do_result :=
  fun _ payload => cmd.DoCreated (cmd.Complete payload).

(** Flags with a comma as delimiter, and an input with an empty token and
    a trailing delimiter. *)
Definition comma_flags : cmd.flags :=
  {| cmd.delimiter := B ","; cmd.timeout := 30 * worker.Second;
     cmd.priority := B "high" |}.
Definition comma_input : bytes := B "1,2,,3,".

(** An ERROR packet with code [E7] and a text, and a JOB_ASSIGN packet
    whose payload has a single NUL. *)
Definition error_packet : bytes :=
  [NUL] ++ B "RES" ++ [NUL; NUL; NUL; byte_of 19] ++
  [NUL; NUL; NUL; byte_of 6] ++ B "E7" ++ [NUL] ++ B "bad".
Definition short_assign_packet : bytes :=
  [NUL] ++ B "RES" ++ [NUL; NUL; NUL; byte_of 11] ++
  [NUL; NUL; NUL; byte_of 7] ++ B "H:1" ++ [NUL] ++ B "rev".

(** A worker with three servers that has been readied but whose main
    loop has not started, a job function that never returns, and a way
    for the connections to go in which the second server refuses. *)
Definition readied_worker : worker.Worker :=
  {| worker.agents := [7%nat; 8%nat; 9%nat];
     worker.funcs := {[ B "rev" := worker.mkJobFunc echo 0 ]};
     worker.running := false; worker.ready := true;
     worker.shuttingDown := false; worker.activeJobs := 0%nat;
     worker.once := true |}.
Definition stuck : worker.JobFunc := fun _ => worker.Hangs.
Definition second_refuses : worker.agent -> option worker.error :=
  fun ag => if decide (ag = 8%nat)
            then Some (worker.Errorf "connection refused" []) else None.


(** A subprocess that answers the first line of [two_line_payload] and
    then stays silent with its stdout open. *)
Definition silent_subprocess : cmd.subprocess :=
  {| cmd.exited := false; cmd.write_results := [];
     cmd.stdout := B "ba" ++ [LF]; cmd.stdout_eof := false |}.

(** A server that refuses the second submission, flags with an empty
    delimiter, and an input of 64 KiB without newline. *)
Definition failing_server : nat -> bytes -> cmd.do_result :=
  fun k payload =>
    if decide (k = 1%nat) then cmd.DoError (B "connection lost")
    else cmd.DoCreated (cmd.Complete payload).
Definition whole_input_flags : cmd.flags :=
  {| cmd.delimiter := []; cmd.timeout := 30 * worker.Second;
     cmd.priority := B "low" |}.
Definition long_record : bytes :=
  replicate bufio.MaxScanTokenSize "a"%byte.

(* ------------------------------------------------------------------ *)
(** ** Facts about the library models                                  *)
(* ------------------------------------------------------------------ *)

Module GoLibFacts.
Import GoLib.

Lemma HasPrefix_spec (s p : bytes) :
  HasPrefix s p = true ↔ ∃ t, s = p ++ t.
Proof.
  revert s. induction p as [|c p IH]; intros s; simpl.
  - split; [intros _; by exists s | done].
  - destruct s as [|b s]; simpl.
    + split; [done | intros [t Ht]; discriminate].
    + rewrite andb_true_iff, bool_decide_eq_true, IH. split.
      * intros [-> [t ->]]. by exists t.
      * intros [t Ht]. injection Ht as -> ->. split; [done | by exists t].
Qed.

Lemma HasPrefix_app (p t : bytes) : HasPrefix (p ++ t) p = true.
Proof. apply HasPrefix_spec. by exists t. Qed.

(** The first separator byte of [h ++ c :: t] is at [length h] when [h]
    has none. *)
Lemma Index_byte_first (h t : bytes) (c : byte) :
  c ∉ h → Index (h ++ c :: t) [c] = Some (length h).
Proof.
  induction h as [|b h IH]; intros Hc; simpl.
  - by rewrite bool_decide_eq_true_2.
  - apply not_elem_of_cons in Hc as [Hne Hc].
    rewrite bool_decide_eq_false_2 by congruence. simpl.
    by rewrite IH.
Qed.

Lemma Index_byte_none (s : bytes) (c : byte) :
  c ∉ s → Index s [c] = None.
Proof.
  induction s as [|b s IH]; intros Hc; simpl; [done|].
  apply not_elem_of_cons in Hc as [Hne Hc].
  rewrite bool_decide_eq_false_2 by congruence. simpl.
  by rewrite IH.
Qed.

Lemma Index_byte_Some (s : bytes) (c : byte) (i : nat) :
  Index s [c] = Some i →
  ∃ h t, s = h ++ c :: t ∧ (c ∉ h) ∧ length h = i.
Proof.
  revert i. induction s as [|b s IH]; intros i; simpl; [done|].
  destruct (decide (b = c)) as [->|Hne].
  - rewrite bool_decide_eq_true_2 by done. simpl. intros [= <-].
    exists [], s. split_and!; [done | apply not_elem_of_nil | done].
  - rewrite bool_decide_eq_false_2 by done. simpl.
    destruct (Index s [c]) as [j|] eqn:Hj; simpl; [|done].
    intros [= <-]. destruct (IH j eq_refl) as (h & t & -> & Hh & Hlen).
    exists (b :: h), t. split_and!; [done | | by (simpl; f_equal)].
    apply not_elem_of_cons. split; [congruence | done].
Qed.

(** One step of [SplitN] on a byte separator. *)
Lemma SplitN_byte_step (h t : bytes) (c : byte) (n : nat) :
  c ∉ h →
  SplitN (h ++ c :: t) [c] (S (S n)) = h :: SplitN t [c] (S n).
Proof.
  intros Hc. cbn [SplitN]. rewrite Index_byte_first by done.
  rewrite take_app_length. f_equal.
  replace (length h + length [c])%nat with (length (h ++ [c]))
    by (rewrite length_app; done).
  replace (h ++ c :: t) with ((h ++ [c]) ++ t) by (by rewrite <- app_assoc).
  by rewrite drop_app_length.
Qed.

Lemma SplitN_one (s sep : bytes) : SplitN s sep 1 = [s].
Proof. done. Qed.

End GoLibFacts.

(* ------------------------------------------------------------------ *)
(** ** The worker-side decoder                                         *)
(* ------------------------------------------------------------------ *)

Module DecodeFacts.
Import GoLib GoLibFacts worker.

Lemma slice_length (s : bytes) (i j : nat) :
  (j ≤ length s)%nat → length (slice s i j) = (j - i)%nat.
Proof. intros H. unfold slice. rewrite length_take, length_drop. lia. Qed.

(** The decoder past its length checks. *)
Lemma decodeInPack_complete NewPT (data : bytes) :
  (rt.MinPacketLength + declared_length data ≤ length data)%nat →
  decodeInPack NewPT data =
    let dl := declared_length data in
    let dt := slice data rt.MinPacketLength (dl + rt.MinPacketLength) in
    let '(pt, err) := NewPT (Uint32 (slice data 4 8)) in
    let inpack := set_dataType getInPack pt in
    match err with
    | Some e => (Some inpack, 0%nat, Some e)
    | None =>
        (Some
           (if decide (pt = rt.PT_JobAssign) then
              match SplitN dt [NUL] 3 with
              | [s0; s1; s2] =>
                  set_data (set_fn (set_handle inpack s0) s1) s2
              | _ => inpack
              end
            else if decide (pt = rt.PT_JobAssignUniq) then
              match SplitN dt [NUL] 4 with
              | [s0; s1; s2; s3] =>
                  set_data
                    (set_uniqueId (set_fn (set_handle inpack s0) s1) s2) s3
              | _ => inpack
              end
            else set_data inpack dt),
         (dl + rt.MinPacketLength)%nat, None)
    end.
Proof.
  intros Hlen. unfold decodeInPack, declared_length in *.
  unfold rt.MinPacketLength in *.
  rewrite decide_False by lia.
  rewrite decide_False by lia.
  rewrite decide_False; [done|].
  intros Hne. apply Hne. rewrite slice_length by lia. lia.
Qed.

End DecodeFacts.

Section decoder_claims.
Import GoLib GoLibFacts worker DecodeFacts.

Variable NewPT : N -> rt.PT * option error.

(** C5.  Partial input.  When the input is shorter than the 12-byte
    header, or shorter than the header plus the payload length the header
    declares, [decodeInPack] returns no packet (a nil pointer), 0 bytes
    consumed and an error, so the caller can feed more input; and
    whenever it does return a packet, at least 12 + declared-length bytes
    were available. *)
Theorem decodeInPack_partial_input (data : bytes) :
  ((length data < 12)%nat ∨ (length data < 12 + declared_length data)%nat →
     ∃ e, decodeInPack NewPT data = (None, 0%nat, Some e))
  ∧ (∀ p l e, decodeInPack NewPT data = (Some p, l, e) →
       (12 + declared_length data ≤ length data)%nat).
Proof.
  unfold decodeInPack, declared_length, rt.MinPacketLength. split.
  - intros Hshort.
    destruct (decide (length data < 12)%nat) as [|Hge]; [eauto|].
    rewrite decide_True by lia. eauto.
  - intros p l e.
    destruct (decide (length data < 12)%nat); [done|].
    destruct (decide (length data < _ + 12)%nat); [done|].
    intros _. lia.
Qed.

(** C4.  Assignment payloads.  For a complete packet whose type is
    JOB_ASSIGN and whose payload is [h ++ NUL ++ fnm ++ NUL ++ d] with no
    NUL in [h] and [fnm], the decoded job has handle [h] (the bytes before
    the first NUL), function name [fnm] (between the first and the second
    NUL) and data [d] (everything after the second NUL, NULs included).
    For JOB_ASSIGN_UNIQ and a payload [h ++ NUL ++ fnm ++ NUL ++ u ++ NUL
    ++ d] the unique id [u] sits between the function name and the data:
    four parts, split on the first three NULs.  The whole packet is
    consumed in both cases. *)
Theorem decodeInPack_assignment_fields (data h fnm u d : bytes) :
  (12 + declared_length data ≤ length data)%nat →
  NUL ∉ h → NUL ∉ fnm → NUL ∉ u →
  (NewPT (Uint32 (slice data 4 8)) = (rt.PT_JobAssign, None) →
   slice data 12 (declared_length data + 12) = h ++ NUL :: fnm ++ NUL :: d →
   decodeInPack NewPT data =
     (Some {| dataType := rt.PT_JobAssign; data := d; handle := h;
              uniqueId := []; fn := fnm; a := None |},
      (declared_length data + 12)%nat, None))
  ∧ (NewPT (Uint32 (slice data 4 8)) = (rt.PT_JobAssignUniq, None) →
     slice data 12 (declared_length data + 12)
       = h ++ NUL :: fnm ++ NUL :: u ++ NUL :: d →
     decodeInPack NewPT data =
       (Some {| dataType := rt.PT_JobAssignUniq; data := d; handle := h;
                uniqueId := u; fn := fnm; a := None |},
        (declared_length data + 12)%nat, None)).
Proof.
  intros Hlen Hh Hf Hu. split; intros Hpt Hpayload.
  - rewrite decodeInPack_complete by done. cbn zeta.
    unfold rt.MinPacketLength. rewrite Hpt, Hpayload.
    rewrite decide_True by done.
    rewrite !SplitN_byte_step by done. by rewrite SplitN_one.
  - rewrite decodeInPack_complete by done. cbn zeta.
    unfold rt.MinPacketLength. rewrite Hpt, Hpayload.
    rewrite decide_False by done. rewrite decide_True by done.
    rewrite !SplitN_byte_step by done. by rewrite SplitN_one.
Qed.

End decoder_claims.

Lemma decodeInPack_partial_input_witness :
  ∃ e, worker.decodeInPack worker.NewPT_gearman (take 15 job_assign_packet)
       = (None, 0%nat, Some e).
Proof.
  apply (proj1 (decodeInPack_partial_input worker.NewPT_gearman _)).
  right. vm_compute. lia.
Defined.

Lemma decodeInPack_assignment_fields_witness :
  worker.decodeInPack worker.NewPT_gearman job_assign_packet =
    (Some {| worker.dataType := rt.PT_JobAssign; worker.data := B "ab";
             worker.handle := B "H:1"; worker.uniqueId := [];
             worker.fn := B "rev"; worker.a := None |},
     22%nat, None).
Proof.
  apply (proj1 (decodeInPack_assignment_fields worker.NewPT_gearman
                  job_assign_packet (B "H:1") (B "rev") [] (B "ab")
                  ltac:(vm_compute; lia)
                  ltac:(apply (bool_decide_unpack _); vm_compute; exact I)
                  ltac:(apply (bool_decide_unpack _); vm_compute; exact I)
                  ltac:(apply not_elem_of_nil))).
  - reflexivity.
  - reflexivity.
Defined.

(* ------------------------------------------------------------------ *)
(** ** Registration packets                                            *)
(* ------------------------------------------------------------------ *)

Module RegisterFacts.
Import GoLib worker.

Lemma to_N_byte_of (n : N) : Byte.to_N (byte_of n) = n mod 256.
Proof.
  unfold byte_of. destruct (Byte.of_N (n mod 256)) as [b|] eqn:Hb.
  - by apply Byte.to_of_N.
  - apply Byte.of_N_None_iff in Hb.
    pose proof (N.mod_lt n 256). lia.
Qed.

Lemma be32_digits (t : N) :
  t < 2 ^ 32 →
  t = ((t / 2 ^ 24) mod 256) * 2 ^ 24 + ((t / 2 ^ 16) mod 256) * 2 ^ 16
      + ((t / 2 ^ 8) mod 256) * 2 ^ 8 + t mod 256.
Proof.
  intros H.
  replace (t / 2 ^ 24) with (t / 256 / 256 / 256)
    by (rewrite !N.Div0.div_div; reflexivity).
  replace (t / 2 ^ 16) with (t / 256 / 256)
    by (rewrite !N.Div0.div_div; reflexivity).
  change (2 ^ 8) with 256. change (2 ^ 24) with 16777216.
  change (2 ^ 16) with 65536. change (2 ^ 32) with 4294967296 in H.
  pose proof (N.div_mod t 256 ltac:(lia)).
  pose proof (N.div_mod (t / 256) 256 ltac:(lia)).
  pose proof (N.div_mod (t / 256 / 256) 256 ltac:(lia)).
  pose proof (N.mod_lt t 256 ltac:(lia)).
  pose proof (N.mod_lt (t / 256) 256 ltac:(lia)).
  pose proof (N.mod_lt (t / 256 / 256) 256 ltac:(lia)).
  assert (t / 256 / 256 / 256 < 256).
  { rewrite !N.Div0.div_div. apply N.Div0.div_lt_upper_bound. simpl. lia. }
  rewrite (N.mod_small (t / 256 / 256 / 256) 256) by lia.
  generalize dependent (t mod 256).
  generalize dependent (t / 256 mod 256).
  generalize dependent (t / 256 / 256 mod 256).
  generalize dependent (t / 256 / 256 / 256).
  generalize dependent (t / 256 / 256).
  generalize dependent (t / 256). intros. lia.
Qed.

(** [PutUint32] stores four bytes, most significant first. *)
Lemma PutUint32_big_endian (t : N) :
  t < 2 ^ 32 →
  ∃ b0 b1 b2 b3, PutUint32 t = [b0; b1; b2; b3] ∧ be32_value b0 b1 b2 b3 = t.
Proof.
  intros H. eexists _, _, _, _. split; [reflexivity|].
  unfold be32_value. rewrite !to_N_byte_of, !N.shiftr_div_pow2.
  symmetry. by apply be32_digits.
Qed.

(** The buffer [prepFuncOutpack] fills for a timeout. *)
Lemma timeout_payload (funcname put : bytes) :
  length put = 4%nat →
  let l := length funcname in
  copy_at (<[l := NUL]> (copy (rt.NewBuffer (l + 5)) funcname)) (l + 1) put
  = funcname ++ NUL :: put.
Proof.
  intros Hput l. unfold copy_at, copy, rt.NewBuffer.
  rewrite length_replicate.
  rewrite (take_ge funcname) by (subst l; lia).
  rewrite drop_replicate.
  replace (l + 5 - length funcname)%nat with 5%nat by (subst l; lia).
  assert (Hins : <[l := NUL]> (funcname ++ replicate 5 NUL)
                 = funcname ++ replicate 5 NUL).
  { subst l. rewrite insert_app_r_alt by lia.
    by replace (length funcname - length funcname)%nat with 0%nat by lia. }
  rewrite Hins.
  replace (l + 1)%nat with (length (funcname ++ [NUL]))
    by (rewrite length_app; simpl; subst l; lia).
  replace (funcname ++ replicate 5 NUL)
    with ((funcname ++ [NUL]) ++ replicate 4 NUL)
    by (by rewrite <- app_assoc).
  rewrite take_app_length, drop_app_length.
  rewrite length_replicate, Hput.
  rewrite (take_ge put) by lia.
  change (drop 4 (replicate 4 NUL)) with (@nil byte).
  by rewrite app_nil_r, <- app_assoc.
Qed.

Lemma prepFuncOutpack_no_timeout (funcname : bytes) :
  prepFuncOutpack funcname 0 =
    {| out_dataType := rt.PT_CanDo; out_data := funcname;
       out_handle := [] |}.
Proof. done. Qed.

Lemma prepFuncOutpack_timeout (funcname : bytes) (t : N) :
  t ≠ 0 →
  prepFuncOutpack funcname t =
    {| out_dataType := rt.PT_CanDoTimeout;
       out_data := funcname ++ NUL :: PutUint32 t; out_handle := [] |}.
Proof.
  intros Ht. unfold prepFuncOutpack. rewrite decide_False by done.
  f_equal. by apply timeout_payload.
Qed.

Lemma written_to_reRegister (w : Worker) (ag : agent)
    (order : list (bytes * jobFunc)) :
  written_to ag (reRegisterFuncsForAgent w ag order) = table_packets order.
Proof.
  unfold reRegisterFuncsForAgent, table_packets, written_to.
  induction order as [|[name jf] order IH]; [done|].
  cbn. rewrite decide_True by done. by rewrite IH.
Qed.

End RegisterFacts.

Section registration_claims.
Import GoLib worker RegisterFacts.

(** C6.  The registration sequence.  A function with timeout 0 is
    encoded as a CAN_DO packet whose payload is exactly the function
    name; a function with a timeout [t > 0] (a [uint32]) as a
    CAN_DO_TIMEOUT packet whose payload is the function name, a NUL byte
    and the four bytes of [t], most significant first.  On re-registration
    the packets written to the agent are exactly these encodings, one for
    every entry of the function table, in the order the map iteration
    takes. *)
Theorem registration_sequence_encoding (w : Worker) (ag : agent)
    (order : list (bytes * jobFunc)) :
  order ≡ₚ map_to_list w.(funcs) →
  (∀ funcname,
     prepFuncOutpack funcname 0 =
       {| out_dataType := rt.PT_CanDo; out_data := funcname;
          out_handle := [] |})
  ∧ (∀ funcname t, 0 < t < 2 ^ 32 →
       ∃ b0 b1 b2 b3,
         prepFuncOutpack funcname t =
           {| out_dataType := rt.PT_CanDoTimeout;
              out_data := funcname ++ [NUL; b0; b1; b2; b3];
              out_handle := [] |}
         ∧ be32_value b0 b1 b2 b3 = t)
  ∧ written_to ag (reRegisterFuncsForAgent w ag order)
      ≡ₚ table_packets (map_to_list w.(funcs))
  ∧ (∀ funcname jf, w.(funcs) !! funcname = Some jf →
       prepFuncOutpack funcname jf.(timeout)
         ∈ written_to ag (reRegisterFuncsForAgent w ag order)).
Proof.
  intros Horder. split_and!.
  - apply prepFuncOutpack_no_timeout.
  - intros funcname t [Hpos Hlt].
    destruct (PutUint32_big_endian t Hlt) as (b0 & b1 & b2 & b3 & Hput & Hval).
    exists b0, b1, b2, b3. split; [|done].
    rewrite prepFuncOutpack_timeout by lia. by rewrite Hput.
  - rewrite written_to_reRegister. unfold table_packets.
    by apply fmap_Permutation.
  - intros funcname jf Hlook. rewrite written_to_reRegister.
    unfold table_packets. apply list_elem_of_fmap.
    exists (funcname, jf). split; [done|].
    rewrite Horder. by apply elem_of_map_to_list.
Qed.

(** C10.  [AddFunc] with a name that is already registered, and
    [RemoveFunc] with a name that is not, return an error, leave the
    worker (and so its function table) as it was, and perform no action:
    nothing is broadcast. *)
Theorem AddFunc_RemoveFunc_rejected (w : Worker) (funcname : bytes)
    (f : JobFunc) (timeout : N) :
  (is_Some (w.(funcs) !! funcname) →
     ∃ e, AddFunc w funcname f timeout = (w, [], Some e))
  ∧ (w.(funcs) !! funcname = None →
     ∃ e, RemoveFunc w funcname = (w, [], Some e)).
Proof.
  split.
  - intros [jf Hjf]. unfold AddFunc. rewrite Hjf. eauto.
  - intros Hnone. unfold RemoveFunc. rewrite Hnone. eauto.
Qed.

End registration_claims.

Lemma registration_sequence_encoding_witness :
  worker.prepFuncOutpack (B "slow") 1
    ∈ worker.written_to 7%nat
        (worker.reRegisterFuncsForAgent example_worker 7%nat
           (map_to_list example_worker.(worker.funcs))).
Proof.
  destruct (registration_sequence_encoding example_worker 7%nat
              (map_to_list example_worker.(worker.funcs))
              ltac:(reflexivity)) as (_ & _ & _ & Hsent).
  apply (Hsent (B "slow") (worker.mkJobFunc sleepy 1)).
  vm_compute. reflexivity.
Defined.

Lemma AddFunc_RemoveFunc_rejected_witness :
  (∃ e, worker.AddFunc example_worker (B "rev") echo 5
        = (example_worker, [], Some e))
  ∧ (∃ e, worker.RemoveFunc example_worker (B "sum")
          = (example_worker, [], Some e)).
Proof.
  split.
  - apply (proj1 (AddFunc_RemoveFunc_rejected example_worker (B "rev") echo 5)).
    vm_compute. eauto.
  - apply (proj2 (AddFunc_RemoveFunc_rejected example_worker (B "sum") echo 5)).
    vm_compute. reflexivity.
Defined.

(* ------------------------------------------------------------------ *)
(** ** Job execution                                                   *)
(* ------------------------------------------------------------------ *)

Module ExecFacts.
Import worker.

Lemma set_activeJobs_undo (w : Worker) :
  set_activeJobs (set_activeJobs w (w.(activeJobs) + 1))
    ((set_activeJobs w (w.(activeJobs) + 1)).(activeJobs) - 1) = w.
Proof.
  destruct w as [ags fs rn rd sd aj on]. unfold set_activeJobs. simpl.
  f_equal. lia.
Qed.

(** [exec] once the job's function is found and the worker is neither
    shutting down nor stopped. *)
Lemma exec_running (w : Worker) (tie : bool) (inpack : inPack)
    (jf : jobFunc) :
  w.(running) = true → w.(shuttingDown) = false →
  w.(funcs) !! inpack.(fn) = Some jf →
  exec w tie inpack =
    match call tie jf inpack with
    | Blocked => Blocked
    | Panicked v =>
        Done (w, [], Some match v with
                          | PanicError e => e
                          | PanicOther _ => ErrUnknown
                          end)
    | Done r =>
        match inpack.(a) with
        | Some ag => Done (w, [EWrite ag (result_outpack inpack r)], r.(r_err))
        | None =>
            Done (w, [],
                  Some (RuntimeError
                          "invalid memory address or nil pointer dereference"))
        end
    end.
Proof.
  intros Hrun Hshut Hjf. unfold exec.
  rewrite set_activeJobs_undo. cbn [shuttingDown running funcs set_activeJobs].
  rewrite Hshut, Hjf, Hrun.
  by destruct (call tie jf inpack) as [r|[e|v]|].
Qed.

(** A function without timeout hands its own return values to [exec]. *)
Lemma call_direct (tie : bool) (jf : jobFunc) (inpack : inPack)
    (elapsed : Duration) (d : bytes) (e : option error) :
  jf.(timeout) = 0 → jf.(f) inpack = Returns elapsed d e →
  call tie jf inpack = Done {| r_data := d; r_err := e |}.
Proof. intros Ht Hf. unfold call. by rewrite decide_True, Hf. Qed.

Lemma call_timed (tie : bool) (jf : jobFunc) (inpack : inPack) :
  jf.(timeout) ≠ 0 →
  call tie jf inpack
  = Done (execTimeout tie jf.(f) inpack (jf.(timeout) * Second)).
Proof. intros Ht. unfold call. by rewrite decide_False. Qed.

End ExecFacts.

Section exec_claims.
Import worker ExecFacts.

Variables (w : Worker) (tie : bool) (inpack : inPack) (jf : jobFunc)
  (ag : agent).
Hypothesis Hrunning : w.(running) = true.
Hypothesis Hshutdown : w.(shuttingDown) = false.
Hypothesis Hfunc : w.(funcs) !! inpack.(fn) = Some jf.
Hypothesis Hagent : inpack.(a) = Some ag.


(** C2.  Timeouts.  For a function registered with a timeout of [T > 0]
    seconds: when the user function produces no result within [T]
    seconds, the execution result is the sentinel [ErrTimeOut] with empty
    data and the running worker writes a WORK_FAIL packet with the job's
    handle; when the function returns before the [T] seconds are over,
    its own result is the execution result and decides the packet.  (A
    result at the very instant the timer fires is left to [select].) *)
Theorem exec_timeout (T : N) :
  jf.(timeout) = T → 0 < T →
  (no_result_within (T * Second) (jf.(f) inpack) →
     execTimeout tie jf.(f) inpack (T * Second)
       = {| r_data := []; r_err := Some ErrTimeOut |}
     ∧ exec w tie inpack =
         Done (w, [EWrite ag {| out_dataType := rt.PT_WorkFail;
                                out_data := [];
                                out_handle := inpack.(handle) |}],
               Some ErrTimeOut))
  ∧ (∀ elapsed d e,
       jf.(f) inpack = Returns elapsed d e → elapsed < T * Second →
       execTimeout tie jf.(f) inpack (T * Second)
         = {| r_data := d; r_err := e |}
       ∧ exec w tie inpack =
           Done (w, [EWrite ag (result_outpack inpack
                                  {| r_data := d; r_err := e |})], e)).
Proof.
  intros HT Hpos.
  assert (Hexec : ∀ r, execTimeout tie jf.(f) inpack (T * Second) = r →
            exec w tie inpack
            = Done (w, [EWrite ag (result_outpack inpack r)], r.(r_err))).
  { intros r Hr. rewrite (exec_running w tie inpack jf) by done.
    rewrite call_timed by lia. rewrite HT, Hr. by rewrite Hagent. }
  split.
  - intros Hnone.
    assert (Hr : execTimeout tie jf.(f) inpack (T * Second)
                 = {| r_data := []; r_err := Some ErrTimeOut |}).
    { unfold execTimeout. destruct (jf.(f) inpack) as [el d e| |]; try done.
      simpl in Hnone. rewrite decide_False by lia.
      by rewrite decide_False by lia. }
    split; [done|]. by rewrite (Hexec _ Hr).
  - intros elapsed d e Hf Hlt.
    assert (Hr : execTimeout tie jf.(f) inpack (T * Second)
                 = {| r_data := d; r_err := e |}).
    { unfold execTimeout. rewrite Hf. by rewrite decide_True. }
    split; [done|]. by rewrite (Hexec _ Hr).
Qed.

(** C3, as the code has it.  A panic of the user function is recovered.
    For a function without timeout [exec] writes no packet at all and
    returns the panic value as its error, [ErrUnknown] when that value is
    not an error.  For a function with a timeout the panic is swallowed
    in the goroutine of [execTimeout], the timer fires, and the job is
    reported like a timeout: WORK_FAIL with [ErrTimeOut]. *)
Theorem exec_panic (elapsed : Duration) (v : panic_value) :
  jf.(f) inpack = Panics elapsed v →
  (jf.(timeout) = 0 →
     exec w tie inpack =
       Done (w, [], Some match v with
                         | PanicError e => e
                         | PanicOther _ => ErrUnknown
                         end))
  ∧ (jf.(timeout) ≠ 0 →
     exec w tie inpack =
       Done (w, [EWrite ag {| out_dataType := rt.PT_WorkFail;
                              out_data := [];
                              out_handle := inpack.(handle) |}],
             Some ErrTimeOut)).
Proof.
  intros Hf. split; intros Ht.
  - rewrite (exec_running w tie inpack jf) by done.
    unfold call. by rewrite decide_True, Hf.
  - rewrite (exec_running w tie inpack jf) by done.
    rewrite call_timed by done. unfold execTimeout. rewrite Hf.
    by rewrite Hagent.
Qed.

End exec_claims.

(* ------------------------------------------------------------------ *)
(** ** The once-guarded registration of [Ready]                        *)
(* ------------------------------------------------------------------ *)

Module ReadyFacts.
Import worker.

Lemma writes_app (tr1 tr2 : list event) :
  writes (tr1 ++ tr2) = writes tr1 ++ writes tr2.
Proof. unfold writes. apply omap_app. Qed.

Lemma writes_connect_all (conn : agent -> option error) (ags : list agent) :
  writes (connect_all conn ags).1 = [].
Proof.
  induction ags as [|ag ags IH]; simpl; [done|].
  destruct (conn ag); [done|].
  destruct (connect_all conn ags) as [tr e]. simpl in *. done.
Qed.

Lemma writes_broadcast (w : Worker) (p : outPack) :
  writes (broadcast w p) = map (fun ag => (ag, p)) w.(agents).
Proof. unfold broadcast. induction w.(agents); simpl; [done|]. by f_equal. Qed.

Lemma writes_register_all (w : Worker) (order : list (bytes * jobFunc)) :
  writes (register_all w order) = broadcast_packets w order.
Proof.
  unfold register_all, broadcast_packets.
  induction order as [|[name jf] order IH]; simpl; [done|].
  rewrite writes_app, IH. f_equal. apply writes_broadcast.
Qed.

(** The broadcast reaches every agent with every function of the table. *)
Lemma broadcast_packets_complete (w : Worker)
    (order : list (bytes * jobFunc)) (funcname : bytes) (jf : jobFunc)
    (ag : agent) :
  order ≡ₚ map_to_list w.(funcs) →
  w.(funcs) !! funcname = Some jf → ag ∈ w.(agents) →
  (ag, prepFuncOutpack funcname jf.(timeout)) ∈ broadcast_packets w order.
Proof.
  intros Horder Hjf Hag. unfold broadcast_packets.
  apply list_elem_of_In, in_flat_map. exists (funcname, jf). split.
  - apply list_elem_of_In. rewrite Horder. by apply elem_of_map_to_list.
  - apply list_elem_of_In, list_elem_of_fmap. by exists ag.
Qed.

Lemma Ready_cases (w : Worker) (conn : agent -> option error)
    (order : list (bytes * jobFunc)) :
  Ready_spec w order (Ready w conn order).
Proof.
  unfold Ready.
  destruct (decide (length w.(agents) = 0%nat)); [by constructor|].
  destruct (decide (size w.(funcs) = 0%nat)); [by constructor|].
  pose proof (writes_connect_all conn w.(agents)) as Hc.
  destruct (connect_all conn w.(agents)) as [tr [e|]]; simpl in Hc.
  - by constructor.
  - destruct w.(once) eqn:Honce.
    + apply Ready_again; [done|]. by rewrite writes_app, Hc.
    + apply Ready_first; [done|].
      by rewrite writes_app, Hc, writes_register_all.
Qed.

(** After the registration has run, no later call writes anything. *)
Lemma Ready_calls_after (calls : list ready_call) (w : Worker) :
  w.(once) = true →
  Forall (fun r => writes r.1 = []) (Ready_calls w calls).2.
Proof.
  revert w. induction calls as [|c calls IH]; intros w Honce; simpl.
  - constructor.
  - pose proof (Ready_cases w c.(rc_conn) c.(rc_order)) as Hc.
    destruct (Ready w c.(rc_conn) c.(rc_order)) as [[w1 tr] err].
    assert (w1.(once) = true ∧ writes tr = []) as [Honce1 Htr].
    { inversion Hc; subst; try done. congruence. }
    specialize (IH w1 Honce1).
    destruct (Ready_calls w1 calls) as [w2 results]. simpl in *.
    by constructor.
Qed.

End ReadyFacts.

Section ready_claims.
Import worker ReadyFacts.

(** C7.  The initial registration runs once.  Take a fresh worker (its
    [once] not yet used) and any sequence of calls of [Ready], whatever
    the connection attempts do.  A call writes the broadcast of the
    function table -- the registration packet of every function to every
    agent -- exactly when it returns nil and every earlier call returned
    an error, that is, when it is the first call that succeeds.  Every
    other call, in particular every call after it, writes no packet. *)
Theorem Ready_registers_once (w : Worker) (calls : list ready_call) :
  w.(once) = false →
  ∀ (i : nat) (c : ready_call) (tr : list event) (err : option error),
    calls !! i = Some c →
    (Ready_calls w calls).2 !! i = Some (tr, err) →
    let earlier_failed :=
      ∀ j r, (j < i)%nat → (Ready_calls w calls).2 !! j = Some r →
             r.2 ≠ None in
    (err = None ∧ earlier_failed →
       writes tr = broadcast_packets w c.(rc_order)
       ∧ (c.(rc_order) ≡ₚ map_to_list w.(funcs) →
          ∀ funcname jf ag,
            w.(funcs) !! funcname = Some jf → ag ∈ w.(agents) →
            (ag, prepFuncOutpack funcname jf.(timeout)) ∈ writes tr))
    ∧ (¬ (err = None ∧ earlier_failed) → writes tr = []).
Proof.
  intros Honce i c tr err Hc Hres earlier_failed.
  assert (Hmain :
    (err = None ∧ earlier_failed →
       writes tr = broadcast_packets w c.(rc_order))
    ∧ (¬ (err = None ∧ earlier_failed) → writes tr = [])).
  { subst earlier_failed. revert w Honce i c tr err Hc Hres.
    induction calls as [|c0 calls IH]; intros w Honce i c tr err; [done|].
    simpl. pose proof (Ready_cases w c0.(rc_conn) c0.(rc_order)) as Hc0.
    destruct (Ready w c0.(rc_conn) c0.(rc_order)) as [[w1 tr0] err0] eqn:HR.
    pose proof (Ready_calls_after calls w1) as Hafter.
    specialize (IH w1).
    destruct (Ready_calls w1 calls) as [w2 results]. simpl in *.
    destruct i as [|i]; simpl.
    - intros [= <-] [= <- <-]. split.
      + intros [-> _]. inversion Hc0; subst; first [done|congruence].
      + intros Hnot. inversion Hc0; subst; try done.
        exfalso. apply Hnot. split; [done|]. intros j r Hj. lia.
    - intros Hc Hres. inversion Hc0; subst.
      + (* the first call failed: the worker is unchanged *)
        destruct (IH Honce i c tr err Hc Hres) as [IH1 IH2]. split.
        * intros [-> Hearlier]. apply IH1. split; [done|].
          intros j r Hj Hr. apply (Hearlier (S j) r); [lia|done].
        * intros Hnot. apply IH2. intros [-> Hearlier]. apply Hnot.
          split; [done|]. intros [|j] r Hj Hr.
          -- simpl in Hr. injection Hr as <-. done.
          -- apply (Hearlier j r); [lia|done].
      + (* the first call registered *)
        assert (Htr : writes tr = []).
        { eapply (Forall_lookup_1 _ _ _ _ (Hafter eq_refl) Hres). }
        split; [|done].
        intros [_ Hearlier]. exfalso.
        apply (Hearlier 0%nat (tr0, None)); [lia|done|done].
      + congruence. }
  destruct Hmain as [Hfirst Hother]. split; [|done].
  intros Hok. split; [by apply Hfirst|].
  intros Horder funcname jf ag Hjf Hag. rewrite (Hfirst Hok).
  by apply broadcast_packets_complete.
Qed.

End ready_claims.

(** *** The properties at the example worker *)


Lemma example_worker_slow :
  example_worker.(worker.funcs) !! B "slow" = Some (worker.mkJobFunc sleepy 1).
Proof. vm_compute. reflexivity. Defined.

Lemma example_worker_boom :
  example_worker.(worker.funcs) !! B "boom" = Some (worker.mkJobFunc boom 0).
Proof. vm_compute. reflexivity. Defined.


Lemma exec_timeout_witness :
  worker.exec example_worker true (example_job (B "slow")) =
    worker.Done
      (example_worker,
       [worker.EWrite 7%nat
          {| worker.out_dataType := rt.PT_WorkFail; worker.out_data := [];
             worker.out_handle := B "H:1" |}], Some worker.ErrTimeOut).
Proof.
  apply (proj1 (exec_timeout example_worker true (example_job (B "slow"))
                  (worker.mkJobFunc sleepy 1) 7%nat
                  eq_refl eq_refl example_worker_slow eq_refl
                  1 eq_refl ltac:(reflexivity))).
  reflexivity.
Defined.

Lemma exec_panic_witness :
  worker.exec example_worker true (example_job (B "boom")) =
    worker.Done (example_worker, [], Some worker.ErrUnknown).
Proof.
  apply (proj1 (exec_panic example_worker true (example_job (B "boom"))
                  (worker.mkJobFunc boom 0) 7%nat
                  eq_refl eq_refl example_worker_boom eq_refl
                  1000 (worker.PanicOther (B "boom")) eq_refl)).
  reflexivity.
Defined.

(** C3 as stated fails: the job's function panics (with a value that is
    not an error) while the worker is running, and [exec] writes no packet
    at all, so no WORK_EXCEPTION reaches the server. *)
Lemma exec_panic_no_exception_packet :
  example_worker.(worker.running) = true
  ∧ example_worker.(worker.funcs) !! B "boom"
      = Some (worker.mkJobFunc boom 0)
  ∧ boom (example_job (B "boom"))
      = worker.Panics 1000 (worker.PanicOther (B "boom"))
  ∧ worker.exec example_worker true (example_job (B "boom"))
      = worker.Done (example_worker, [], Some worker.ErrUnknown)
  ∧ ¬ (∃ w' tr err ag p,
         worker.exec example_worker true (example_job (B "boom"))
           = worker.Done (w', tr, err)
         ∧ worker.EWrite ag p ∈ tr
         ∧ p.(worker.out_dataType) = rt.PT_WorkException).
Proof.
  assert (Hexec : worker.exec example_worker true (example_job (B "boom"))
                  = worker.Done (example_worker, [], Some worker.ErrUnknown))
    by (vm_compute; reflexivity).
  split_and!; try done.
  intros (w' & tr & err & ag & p & Hdone & Hin & _).
  rewrite Hexec in Hdone. inversion Hdone; subst tr.
  by apply elem_of_nil in Hin.
Qed.

Lemma Ready_registers_once_witness :
  ∃ tr,
    (worker.Ready_calls fresh_worker [refused; accepted; accepted]).2
      !! 1%nat = Some (tr, None)
    ∧ worker.writes tr
      = worker.broadcast_packets fresh_worker accepted.(worker.rc_order).
Proof.
  eexists. split; [vm_compute; reflexivity|].
  edestruct (Ready_registers_once fresh_worker [refused; accepted; accepted]
               eq_refl 1%nat accepted _ None eq_refl
               ltac:(vm_compute; reflexivity)) as [Hfirst _].
  apply Hfirst. split; [reflexivity|].
  intros [|j] r Hj Hr; [|lia].
  vm_compute in Hr. injection Hr as <-. discriminate.
Defined.

(* ------------------------------------------------------------------ *)
(** ** The persistent subprocess of the worker command                 *)
(* ------------------------------------------------------------------ *)

Module SubprocessFacts.
Import GoLib GoLibFacts cmd.

Lemma IndexByte_first (h t : bytes) (c : byte) :
  c ∉ h → IndexByte (h ++ c :: t) c = Some (length h).
Proof.
  induction h as [|b h IH]; intros Hc; simpl.
  - by rewrite decide_True.
  - apply not_elem_of_cons in Hc as [Hne Hc].
    rewrite decide_False by congruence. by rewrite IH.
Qed.

Lemma TrimSuffix_newline (l : bytes) : TrimSuffix (l ++ [LF]) [LF] = l.
Proof.
  unfold TrimSuffix, HasSuffix. rewrite rev_app_distr. simpl.
  rewrite length_app. simpl.
  replace (length l + 1 - 1)%nat with (length l) by lia.
  apply take_app_length.
Qed.

(** The loop reads one line for each non-empty input line. *)
Lemma read_lines_complete (inputLines lines : list bytes) :
  ∀ (rest : bytes) (collected : list bytes) (eof : bool) (tr : list io),
    length lines = length (filter (fun l => l ≠ []) inputLines) →
    Forall (fun l => LF ∉ l) lines →
    read_lines inputLines (line_stream lines ++ rest) eof collected tr
    = Done (tr ++ map (fun l => ReadString (l ++ [LF])) lines,
            Join (collected ++ lines) [LF], None).
Proof.
  revert lines.
  induction inputLines as [|inputLine inputLines IH];
    intros lines rest collected eof tr Hlen Hnl.
  - destruct lines; [|done]. simpl. by rewrite !app_nil_r.
  - cbn [read_lines]. destruct (decide (inputLine = [])) as [->|Hne].
    + apply IH; [|done]. by rewrite filter_cons_False in Hlen by auto.
    + rewrite filter_cons_True in Hlen by done.
      destruct lines as [|l lines]; [done|].
      apply Forall_cons in Hnl as [Hl Hnl].
      change (line_stream (l :: lines)) with ((l ++ [LF]) ++ line_stream lines).
      rewrite <- (app_assoc (l ++ [LF])).
      set (out := line_stream lines ++ rest).
      assert (Hidx : IndexByte ((l ++ [LF]) ++ out) LF = Some (length l)).
      { rewrite <- app_assoc. simpl. by apply IndexByte_first. }
      rewrite Hidx.
      replace (S (length l)) with (length (l ++ [LF]))
        by (rewrite length_app; simpl; lia).
      rewrite take_app_length, drop_app_length.
      rewrite TrimSuffix_newline. subst out.
      rewrite (IH lines rest) by (simpl in Hlen; auto with lia).
      by rewrite <- !app_assoc.
Qed.

Lemma reads_app (tr1 tr2 : list io) : reads (tr1 ++ tr2) = reads tr1 ++ reads tr2.
Proof. unfold reads. apply omap_app. Qed.

Lemma written_app (tr1 tr2 : list io) :
  written (tr1 ++ tr2) = written tr1 ++ written tr2.
Proof. unfold written. apply flat_map_app. Qed.

Lemma reads_ReadString (lines : list bytes) :
  reads (map (fun l => ReadString (l ++ [LF])) lines)
  = map (fun l => l ++ [LF]) lines.
Proof. induction lines; simpl; [done|]. by f_equal. Qed.

Lemma written_ReadString (lines : list bytes) :
  written (map (fun l => ReadString (l ++ [LF])) lines) = [].
Proof. induction lines; simpl; done. Qed.

End SubprocessFacts.

Section subprocess_claims.
Import GoLib cmd SubprocessFacts.

(** C8, as the code has it.  With the subprocess alive and its stdin
    accepting writes, one invocation writes the payload to stdin,
    followed by a newline when the payload does not end with one.  It
    then reads one stdout line for every non-empty line of the payload
    _after leading and trailing white space has been trimmed from the
    payload as a whole_ (empty lines in between contribute no read), and
    returns the lines read, without their newlines, joined with
    newlines. *)
Theorem persistent_subprocess_job (p : subprocess) (data : bytes)
    (lines : list bytes) (rest : bytes) :
  p.(exited) = false →
  Forall (fun r => r = None) p.(write_results) →
  length lines = length (nonempty_lines (TrimSpace data)) →
  Forall (fun l => LF ∉ l) lines →
  p.(stdout) = line_stream lines ++ rest →
  ∃ tr,
    processJobWithPersistentSubprocess p data
      = Done (tr, Join lines [LF], None)
    ∧ written tr = data ++ (if HasSuffix data [LF] then [] else [LF])
    ∧ reads tr = map (fun l => l ++ [LF]) lines.
Proof.
  intros Hexited Hwrites Hlen Hnl Hout.
  assert (Hw : ∀ i e, p.(write_results) !! i ≠ Some (Some e)).
  { intros i e Hi. by apply (Forall_lookup_1 _ _ _ _ Hwrites) in Hi. }
  unfold processJobWithPersistentSubprocess. rewrite Hexited, Hout.
  destruct (p.(write_results) !! 0%nat) as [[e|]|] eqn:H0;
    [by destruct (Hw 0%nat e)| |];
    (destruct (HasSuffix data [LF]);
     [| destruct (p.(write_results) !! 1%nat) as [[e|]|] eqn:H1;
        [by destruct (Hw 1%nat e)| |] ]);
    rewrite read_lines_complete by done;
    eexists; (split; [reflexivity|]);
    rewrite written_app, reads_app, written_ReadString, reads_ReadString;
    simpl; by rewrite ?app_nil_r.
Qed.

End subprocess_claims.

Lemma persistent_subprocess_job_witness :
  ∃ tr,
    cmd.processJobWithPersistentSubprocess rev_subprocess two_line_payload
      = cmd.Done (tr, B "ba" ++ [LF] ++ B "dc", None)
    ∧ cmd.written tr = two_line_payload ++ [LF]
    ∧ cmd.reads tr = [B "ba" ++ [LF]; B "dc" ++ [LF]].
Proof.
  apply (persistent_subprocess_job rev_subprocess two_line_payload
           [B "ba"; B "dc"] []).
  - reflexivity.
  - constructor.
  - vm_compute. reflexivity.
  - repeat constructor; apply (bool_decide_unpack _); vm_compute; exact I.
  - vm_compute. reflexivity.
Defined.

(** C8 as stated fails: the payload ["a\n \n"] has two non-empty lines (the
    second is a space), the subprocess answers both, but the invocation
    reads a single line: the blank last line is trimmed away before the
    lines are counted. *)
Lemma persistent_subprocess_blank_tail :
  length (cmd.nonempty_lines blank_tail_payload) = 2%nat
  ∧ ∃ tr,
      cmd.processJobWithPersistentSubprocess cat_subprocess blank_tail_payload
        = cmd.Done (tr, B "a", None)
      ∧ length (cmd.reads tr) = 1%nat.
Proof.
  split; [vm_compute; reflexivity|].
  eexists. split; vm_compute; reflexivity.
Qed.

(* ------------------------------------------------------------------ *)
(** ** The scanner of the client command                               *)
(* ------------------------------------------------------------------ *)

Module IndexFacts.
Import GoLib GoLibFacts.

Lemma HasPrefix_length (s p : bytes) :
  HasPrefix s p = true → (length p ≤ length s)%nat.
Proof.
  intros [t ->]%HasPrefix_spec. rewrite length_app. lia.
Qed.

Lemma HasPrefix_app_long (b s d : bytes) :
  (length d ≤ length b)%nat → HasPrefix (b ++ s) d = HasPrefix b d.
Proof.
  revert b. induction d as [|c d IH]; intros b Hlen; [done|].
  destruct b as [|x b]; simpl in *; [lia|].
  rewrite IH by lia. done.
Qed.

Lemma HasPrefix_take (t d : bytes) :
  take (length d) t = d ↔ HasPrefix t d = true.
Proof.
  rewrite HasPrefix_spec. split.
  - intros Ht. exists (drop (length d) t).
    rewrite <- Ht at 1. by rewrite take_drop.
  - intros [u ->]. by rewrite take_app_length.
Qed.

Lemma Index_bound (s d : bytes) (j : nat) :
  Index s d = Some j → (j + length d ≤ length s)%nat.
Proof.
  revert j. induction s as [|x s IH]; intros j; simpl.
  - destruct (HasPrefix [] d) eqn:Hp; [|done].
    intros [= <-]. apply HasPrefix_length in Hp. simpl in *. lia.
  - destruct (HasPrefix (x :: s) d) eqn:Hp.
    + intros [= <-]. apply HasPrefix_length in Hp. simpl in *. lia.
    + destruct (Index s d) as [j'|]; simpl; [|done].
      intros [= <-]. specialize (IH j' eq_refl). lia.
Qed.

Lemma Index_short (s d : bytes) :
  (length s < length d)%nat → Index s d = None.
Proof.
  intros Hlen. destruct (Index s d) as [j|] eqn:Hj; [|done].
  apply Index_bound in Hj. lia.
Qed.

(** An occurrence that lies within a prefix is found in the prefix. *)
Lemma Index_app_inv (b s d : bytes) (j : nat) :
  Index (b ++ s) d = Some j → (j + length d ≤ length b)%nat →
  Index b d = Some j.
Proof.
  revert j. induction b as [|x b IH]; intros j Hj Hlen.
  - simpl in Hlen. assert (j = 0%nat) as -> by lia.
    destruct d; [|simpl in Hlen; lia]. by destruct s.
  - cbn [app Index] in Hj |- *.
    change (x :: b ++ s) with ((x :: b) ++ s) in Hj.
    destruct (HasPrefix ((x :: b) ++ s) d) eqn:Hp.
    + injection Hj as <-.
      rewrite HasPrefix_app_long in Hp by (simpl in *; lia).
      by rewrite Hp.
    + destruct (Index (b ++ s) d) as [j'|] eqn:Hj'; [|done].
      injection Hj as <-. simpl in Hlen.
      rewrite HasPrefix_app_long in Hp by (simpl; lia).
      rewrite Hp. by rewrite (IH j' eq_refl) by lia.
Qed.

(** The first occurrence in a prefix is the first occurrence. *)
Lemma Index_app_l (b s d : bytes) (j : nat) :
  Index b d = Some j → Index (b ++ s) d = Some j.
Proof.
  revert j. induction b as [|x b IH]; intros j Hj.
  - simpl in Hj. destruct (HasPrefix [] d) eqn:Hp; [|done].
    injection Hj as <-. apply HasPrefix_length in Hp.
    destruct d; [|simpl in Hp; lia]. by destruct s.
  - pose proof (Index_bound _ _ _ Hj) as Hb.
    cbn [app Index] in Hj |- *.
    change (x :: b ++ s) with ((x :: b) ++ s).
    rewrite HasPrefix_app_long by lia.
    destruct (HasPrefix (x :: b) d); [done|].
    destruct (Index b d) as [j'|] eqn:Hj'; [|done].
    by rewrite (IH j' eq_refl).
Qed.

Lemma Index_app_None (b s d : bytes) :
  Index (b ++ s) d = None → Index b d = None.
Proof.
  intros Hn. destruct (Index b d) as [j|] eqn:Hj; [|done].
  apply (Index_app_l b s) in Hj. congruence.
Qed.

Lemma IndexByte_Index (s : bytes) (c : byte) : IndexByte s c = Index s [c].
Proof.
  induction s as [|b s IH]; simpl; [done|].
  destruct (decide (b = c)) as [->|Hne].
  - by rewrite bool_decide_eq_true_2.
  - rewrite bool_decide_eq_false_2 by done. simpl. by rewrite IH.
Qed.

Lemma SplitN_None (s d : bytes) (n : nat) :
  Index s d = None → SplitN s d (S n) = [s].
Proof. intros Hn. destruct n; simpl; [done|]. by rewrite Hn. Qed.

Lemma SplitN_Some (s d : bytes) (n j : nat) :
  Index s d = Some j →
  SplitN s d (S (S n)) = take j s :: SplitN (drop (j + length d) s) d (S n).
Proof. intros Hj. cbn [SplitN]. by rewrite Hj. Qed.

End IndexFacts.

Module SplitFuncFacts.
Import GoLib GoLibFacts IndexFacts bufio cmd.

(** The search loop of the custom split function finds the first
    occurrence of the delimiter. *)
Lemma search_delimiter_Index (d data : bytes) :
  (0 < length d)%nat →
  ∀ (count j : nat),
    (j + count = S (length data) - length d)%nat →
    search_delimiter d data j count
    = (fun k => (j + k)%nat) <$> Index (drop j data) d.
Proof.
  intros Hd. induction count as [|count IH]; intros j Hj; simpl.
  - rewrite Index_short; [done|]. rewrite length_drop. lia.
  - assert (Hlt : (j < length data)%nat) by lia.
    destruct (drop j data) as [|x t] eqn:Hdrop.
    { apply (f_equal length) in Hdrop. rewrite length_drop in Hdrop.
      simpl in Hdrop. lia. }
    assert (Ht : drop (S j) data = t).
    { replace (S j) with (j + 1)%nat by lia.
      rewrite <- drop_drop. by rewrite Hdrop. }
    unfold slice. replace (j + length d - j)%nat with (length d) by lia.
    rewrite Hdrop. cbn [Index].
    destruct (decide (take (length d) (x :: t) = d)) as [Heq|Hne].
    + apply HasPrefix_take in Heq. rewrite Heq. simpl. f_equal. lia.
    + destruct (HasPrefix (x :: t) d) eqn:Hp.
      { by apply HasPrefix_take in Hp. }
      rewrite IH by lia. rewrite Ht.
      destruct (Index t d); simpl; [f_equal; lia|done].
Qed.

(** The custom split function is the split function of its delimiter. *)
Lemma delimiterSplit_delimited (d data : bytes) (atEOF : bool) :
  d ≠ [] → delimiterSplit d data atEOF = delimited d id data atEOF.
Proof.
  intros Hd. assert (0 < length d)%nat by (destruct d; simpl; [done|lia]).
  unfold delimiterSplit, delimited.
  rewrite decide_True by done.
  rewrite search_delimiter_Index by (done || lia).
  rewrite drop_0.
  replace ((fun k => (0 + k)%nat) <$> Index data d) with (Index data d)
    by (by destruct (Index data d)).
  destruct (Index data d) as [k|] eqn:Hk.
  - apply Index_bound in Hk.
    rewrite bool_decide_eq_false_2 by lia. by rewrite andb_false_r.
  - destruct atEOF, data as [|x data]; done.
Qed.

(** [ScanLines] is the split function of the newline, with [dropCR]
    applied to the tokens. *)
Lemma ScanLines_delimited (data : bytes) (atEOF : bool) :
  ScanLines data atEOF = delimited [LF] dropCR data atEOF.
Proof.
  unfold ScanLines, delimited. rewrite IndexByte_Index.
  destruct (Index data [LF]) as [k|] eqn:Hk.
  - apply Index_bound in Hk. simpl in Hk.
    rewrite bool_decide_eq_false_2 by lia. by rewrite andb_false_r.
  - destruct atEOF, data as [|x data]; done.
Qed.

End SplitFuncFacts.

Module ScannerFacts.
Import GoLib GoLibFacts IndexFacts bufio.

Lemma read_size_bounds (want free avail : nat) :
  (0 < avail)%nat → (0 < free)%nat →
  (1 ≤ read_size want free avail ≤ avail)%nat.
Proof. unfold read_size. lia. Qed.

Section delimited_scanner.
Variables (split : SplitFunc) (d : bytes) (post : bytes -> bytes)
  (maxTokenSize : nat).
Hypothesis Hd : d ≠ [].
Hypothesis Hsplit :
  ∀ data atEOF, split data atEOF = delimited d post data atEOF.

Lemma d_length : (0 < length d)%nat.
Proof. clear Hsplit. destruct d; simpl; [done|lia]. Qed.

Lemma try_split_found (s : Scanner) (k : nat) :
  Index s.(buf) d = Some k →
  try_split split s
  = inr (drop (k + length d) s.(buf), Some (post (take k s.(buf)))).
Proof.
  intros Hk. pose proof (Index_bound _ _ _ Hk) as Hb.
  pose proof d_length. unfold try_split.
  rewrite bool_decide_eq_true_2 by (destruct s.(buf); simpl in *; [lia|done]).
  simpl. rewrite Hsplit. unfold delimited. rewrite Hk.
  by rewrite decide_False by lia.
Qed.

Lemma try_split_none (s : Scanner) :
  s.(eof) = false → Index s.(buf) d = None →
  try_split split s = inr (s.(buf), None).
Proof.
  intros Heof Hn. unfold try_split. rewrite Heof, orb_false_r.
  destruct (bool_decide (s.(buf) ≠ [])); [|done].
  rewrite Hsplit. unfold delimited. rewrite Hn. simpl.
  by rewrite drop_0.
Qed.

Lemma try_split_rest (s : Scanner) :
  s.(eof) = true → Index s.(buf) d = None → s.(buf) ≠ [] →
  try_split split s = inr ([], Some (post s.(buf))).
Proof.
  intros Heof Hn Hne. unfold try_split. rewrite Heof, orb_true_r.
  rewrite Hsplit. unfold delimited. rewrite Hn.
  rewrite bool_decide_eq_true_2 by done. simpl.
  rewrite decide_False by lia. by rewrite drop_all.
Qed.

Lemma try_split_end (s : Scanner) :
  s.(eof) = true → s.(buf) = [] → try_split split s = inr ([], None).
Proof.
  intros Heof Hb. unfold try_split. rewrite Heof, orb_true_r.
  rewrite Hsplit, Hb. unfold delimited.
  rewrite Index_short by (pose proof d_length; simpl; lia).
  by rewrite bool_decide_eq_false_2 by auto.
Qed.

(** A token that ends with the delimiter. *)
Lemma scan_loop_found (fuel : nat) :
  ∀ (s : Scanner) (j : nat),
    s.(eof) = false →
    Index (s.(buf) ++ s.(src)) d = Some j →
    (j + length d ≤ maxTokenSize)%nat →
    (length s.(src) < fuel)%nat →
    ∃ s',
      scan_loop fuel split maxTokenSize s
        = Token s' (post (take j (s.(buf) ++ s.(src))))
      ∧ s'.(eof) = false
      ∧ s'.(buf) ++ s'.(src) = drop (j + length d) (s.(buf) ++ s.(src)).
Proof.
  induction fuel as [|fuel IH]; intros s j Heof Hj Hmax Hfuel; [lia|].
  cbn [scan_loop].
  destruct (Index s.(buf) d) as [k|] eqn:Hk.
  - (* the delimiter is in the buffer *)
    pose proof (Index_app_l _ s.(src) _ _ Hk) as Hk'.
    assert (k = j) as -> by congruence.
    pose proof (Index_bound _ _ _ Hk) as Hb.
    rewrite (try_split_found s j Hk).
    exists (mkScanner s.(src) s.(wanted) (drop (j + length d) s.(buf))
              s.(eof)).
    cbn [buf src eof]. split_and!.
    + by rewrite take_app_le by lia.
    + done.
    + by rewrite drop_app_le by lia.
  - (* more input is needed *)
    rewrite (try_split_none s Heof Hk), Heof.
    destruct (decide (maxTokenSize ≤ length s.(buf))%nat) as [Hfull|Hroom].
    { apply Index_app_inv in Hj; [congruence|lia]. }
    destruct s.(src) as [|x rest] eqn:Hsrc.
    { rewrite app_nil_r in Hj. congruence. }
    set (n := read_size _ _ _).
    assert (1 ≤ n ≤ length (x :: rest))%nat as Hn
      by (apply read_size_bounds; simpl; lia).
    destruct (IH (mkScanner (drop n (x :: rest)) (tail s.(wanted))
                    (s.(buf) ++ take n (x :: rest)) false) j)
      as (s' & Hscan & Heof' & Hrest); cbn [buf src eof].
    + done.
    + by rewrite <- app_assoc, take_drop.
    + done.
    + rewrite length_drop. simpl in *. lia.
    + cbn [buf src eof] in *.
      rewrite <- app_assoc, take_drop in Hscan, Hrest. eauto.
Qed.

(** The last token: what is left when the input ends. *)
Lemma scan_loop_rest (fuel : nat) :
  ∀ (s : Scanner),
    s.(eof) = false →
    Index (s.(buf) ++ s.(src)) d = None →
    s.(buf) ++ s.(src) ≠ [] →
    (length (s.(buf) ++ s.(src)) < maxTokenSize)%nat →
    (S (length s.(src)) < fuel)%nat →
    ∃ w,
      scan_loop fuel split maxTokenSize s
        = Token (mkScanner [] w [] true) (post (s.(buf) ++ s.(src))).
Proof.
  induction fuel as [|fuel IH]; intros s Heof Hn Hne Hlen Hfuel; [lia|].
  cbn [scan_loop].
  pose proof (Index_app_None _ _ _ Hn) as Hk.
  rewrite (try_split_none s Heof Hk), Heof.
  rewrite length_app in Hlen.
  rewrite decide_False by lia.
  destruct s.(src) as [|x rest] eqn:Hsrc.
  - rewrite app_nil_r in *. destruct fuel as [|fuel]; [simpl in *; lia|].
    cbn [scan_loop].
    rewrite (try_split_rest (mkScanner [] s.(wanted) s.(buf) true))
      by done.
    cbn [buf src eof wanted]. eauto.
  - set (n := read_size _ _ _).
    assert (1 ≤ n ≤ length (x :: rest))%nat as Hbn
      by (apply read_size_bounds; simpl; lia).
    destruct (IH (mkScanner (drop n (x :: rest)) (tail s.(wanted))
                    (s.(buf) ++ take n (x :: rest)) false))
      as (w & Hscan); cbn [buf src eof].
    + done.
    + by rewrite <- app_assoc, take_drop.
    + by rewrite <- app_assoc, take_drop.
    + rewrite <- app_assoc, take_drop, length_app. lia.
    + rewrite length_drop. simpl in *. lia.
    + cbn [buf src eof] in *.
      rewrite <- app_assoc, take_drop in Hscan. eauto.
Qed.

(** After the last token the scan stops without error. *)
Lemma scan_loop_end (fuel : nat) (s : Scanner) :
  s.(buf) = [] → s.(src) = [] → (0 < maxTokenSize)%nat →
  (1 < fuel)%nat →
  scan_loop fuel split maxTokenSize s = Stop None.
Proof.
  intros Hb Hs Hmax Hfuel.
  destruct fuel as [|[|fuel]]; [lia|lia|].
  cbn [scan_loop]. destruct s.(eof) eqn:Heof.
  - by rewrite (try_split_end s Heof Hb).
  - rewrite (try_split_none s Heof)
      by (rewrite Hb; apply Index_short; pose proof d_length; simpl; lia).
    rewrite Hb, Hs. rewrite decide_False by (simpl; lia).
    by rewrite (try_split_end (mkScanner [] s.(wanted) [] true)).
Qed.

Hypothesis Hpost : post [] = [].

(** The scanner yields the pieces of the input, up to empty tokens. *)
Lemma scan_tokens_pieces (n : nat) :
  ∀ (R : bytes) (fuel : nat) (s : Scanner),
    (length R < n)%nat →
    Forall (fun piece => (length piece + length d ≤ maxTokenSize)%nat)
      (SplitN R d n) →
    s.(buf) ++ s.(src) = R → s.(eof) = false →
    (length R < fuel)%nat →
    ∃ tokens,
      scan_tokens fuel split maxTokenSize s = (tokens, None)
      ∧ filter (fun t => t ≠ []) tokens
        = filter (fun t => t ≠ []) (map post (SplitN R d n)).
Proof.
  pose proof d_length as Hdl.
  induction n as [|n IH]; intros R fuel s Hn Hfits HR Heof Hfuel; [lia|].
  destruct fuel as [|fuel]; [lia|]. cbn [scan_tokens]. unfold Scan.
  destruct (Index R d) as [j|] eqn:Hidx.
  - pose proof (Index_bound _ _ _ Hidx) as Hb.
    destruct n as [|n]; [lia|].
    rewrite (SplitN_Some _ _ _ _ Hidx) in Hfits |- *.
    apply Forall_cons in Hfits as [Hfit Hfits].
    rewrite length_take in Hfit.
    destruct (scan_loop_found (S (S (length s.(src)))) s j)
      as (s' & Hscan & Heof' & Hrest);
      [done | by rewrite HR | lia | lia |].
    rewrite Hscan, HR. rewrite HR in Hrest.
    destruct (IH (drop (j + length d) R) fuel s')
      as (tokens & Htokens & Hfilter);
      [rewrite length_drop; lia | done | done | done
      | rewrite length_drop; lia |].
    rewrite Htokens. eexists. split; [reflexivity|].
    cbn [map]. rewrite !filter_cons. by rewrite Hfilter.
  - rewrite (SplitN_None _ _ _ Hidx) in Hfits |- *.
    apply Forall_cons in Hfits as [Hfit _].
    destruct (decide (R = [])) as [->|Hne].
    + apply app_eq_nil in HR as [Hb Hs].
      rewrite scan_loop_end by (done || lia).
      exists []. split; [done|]. cbn [map]. rewrite Hpost.
      by rewrite filter_cons_False by auto.
    + destruct (scan_loop_rest (S (S (length s.(src)))) s) as (w & Hscan);
        [done | by rewrite HR | by rewrite HR | rewrite HR; lia | lia |].
      rewrite Hscan, HR.
      destruct fuel as [|fuel]; [destruct R; simpl in *; [done|lia]|].
      cbn [scan_tokens]. unfold Scan.
      rewrite scan_loop_end by (done || simpl; lia).
      eexists. split; [reflexivity|]. done.
Qed.

End delimited_scanner.

End ScannerFacts.

Module ClientFacts.
Import GoLib bufio cmd.

(** Empty tokens submit nothing. *)
Lemma submit_tokens_filter (funcName : bytes) (p : rt.JobPriority)
    (timeout : N) (server : nat -> bytes -> do_result)
    (tokens : list bytes) :
  ∀ k, submit_tokens funcName p timeout server k tokens
       = submit_tokens funcName p timeout server k
           (filter (fun t => t ≠ []) tokens).
Proof.
  induction tokens as [|line tokens IH]; intros k; [done|].
  cbn [submit_tokens]. destruct (decide (line = [])) as [->|Hne].
  - by rewrite filter_cons_False by auto.
  - rewrite filter_cons_True by done. cbn [submit_tokens].
    rewrite decide_False by done.
    destruct (server k line); [done|]. by rewrite IH.
Qed.

Lemma job_actions_cons (funcName : bytes) (p : rt.JobPriority)
    (timeout : N) (outcomes : nat -> bytes -> job_outcome) (k : nat)
    (x : bytes) (payloads : list bytes) :
  job_actions funcName p timeout outcomes k (x :: payloads)
  = Submit funcName x p :: report timeout (outcomes k x)
      :: job_actions funcName p timeout outcomes (S k) payloads.
Proof.
  unfold job_actions. rewrite imap_cons. cbn [concat app].
  rewrite Nat.add_0_r. do 3 f_equal.
  apply imap_ext. intros i y _. simpl. do 4 f_equal. lia.
Qed.

Lemma submit_tokens_created (funcName : bytes) (p : rt.JobPriority)
    (timeout : N) (server : nat -> bytes -> do_result)
    (outcomes : nat -> bytes -> job_outcome) (tokens : list bytes) :
  (∀ k line, server k line = DoCreated (outcomes k line)) →
  Forall (fun t => t ≠ []) tokens →
  ∀ k, submit_tokens funcName p timeout server k tokens
       = (job_actions funcName p timeout outcomes k tokens, None).
Proof.
  intros Hserver Hne.
  induction Hne as [|line tokens Hline Hne IH]; intros k; [done|].
  cbn [submit_tokens]. rewrite decide_False by done.
  rewrite Hserver, IH. by rewrite (job_actions_cons _ _ _ _ k line).
Qed.

Lemma submitted_job_actions (funcName : bytes) (p : rt.JobPriority)
    (timeout : N) (outcomes : nat -> bytes -> job_outcome)
    (payloads : list bytes) :
  ∀ k, submitted (job_actions funcName p timeout outcomes k payloads)
       = payloads.
Proof.
  induction payloads as [|x payloads IH]; intros k; [done|].
  rewrite job_actions_cons. unfold submitted, report in *.
  destruct (outcomes k x); simpl; f_equal; apply IH.
Qed.

End ClientFacts.

Section client_claims.
Import GoLib bufio cmd ScannerFacts SplitFuncFacts ClientFacts.

Lemma Forall_filter_nonempty (l : list bytes) :
  Forall (fun t => t ≠ []) (filter (fun t => t ≠ []) l).
Proof. apply Forall_forall. by intros t [Ht _]%list_elem_of_filter. Qed.

(** C9, as the code has it.  Let the delimiter be non-empty, let every
    piece of stdin between two delimiters fit, with one delimiter, into
    the scanner's buffer of 64 KiB, and let no submission fail.  Then the
    tokens are the pieces of stdin split by the delimiter -- with the
    default newline delimiter each piece without one trailing carriage
    return --, every empty token is skipped, and for every non-empty
    token, in order, exactly one job with the token as payload is
    submitted and reported before the next: a result line on stdout for
    WORK_COMPLETE, a message on stderr for WORK_FAIL, WORK_EXCEPTION or a
    timeout.  This holds however stdin arrives in pieces. *)
Theorem runClient_submits_tokens (fl : flags) (funcName : bytes)
    (server : nat -> bytes -> do_result)
    (outcomes : nat -> bytes -> job_outcome) (stdin : bytes)
    (wanted : list nat) :
  fl.(delimiter) ≠ [] →
  (∀ k line, server k line = DoCreated (outcomes k line)) →
  Forall (fun piece =>
            (length piece + length fl.(delimiter) ≤ MaxScanTokenSize)%nat)
    (Split stdin fl.(delimiter)) →
  let tokens :=
    filter (fun t => t ≠ [])
      (map (if decide (fl.(delimiter) = [LF]) then dropCR else id)
         (Split stdin fl.(delimiter))) in
  runClient fl funcName None server stdin wanted
    = (job_actions funcName (jobPriority_of fl.(priority)) fl.(timeout)
         outcomes 0 tokens, None)
  ∧ submitted (runClient fl funcName None server stdin wanted).1 = tokens.
Proof.
  intros Hd Hserver Hfits tokens.
  assert (Hscan : ∃ toks,
            scan_tokens (S (length stdin))
              (if decide (fl.(delimiter) ≠ [LF])
               then delimiterSplit fl.(delimiter) else ScanLines)
              MaxScanTokenSize (NewScanner stdin wanted) = (toks, None)
            ∧ filter (fun t => t ≠ []) toks = tokens).
  { subst tokens. unfold Split in *.
    destruct (decide (fl.(delimiter) = [LF])) as [Hlf|Hcustom].
    - rewrite decide_False by auto. rewrite Hlf in *.
      apply (scan_tokens_pieces ScanLines [LF] dropCR MaxScanTokenSize);
        try done; [apply ScanLines_delimited | lia | lia].
    - rewrite decide_True by done.
      apply (scan_tokens_pieces (delimiterSplit fl.(delimiter))
               fl.(delimiter) id MaxScanTokenSize);
        try done; [|lia|lia].
      intros data atEOF. by apply delimiterSplit_delimited. }
  destruct Hscan as (toks & Hscan & Hfilter).
  assert (Hrun : runClient fl funcName None server stdin wanted
                 = (job_actions funcName (jobPriority_of fl.(priority))
                      fl.(timeout) outcomes 0 tokens, None)).
  { unfold runClient. rewrite Hscan.
    rewrite submit_tokens_filter, Hfilter.
    rewrite (submit_tokens_created _ _ _ _ outcomes)
      by (done || apply Forall_filter_nonempty).
    done. }
  split; [done|]. rewrite Hrun. apply submitted_job_actions.
Qed.

End client_claims.

Lemma runClient_submits_tokens_witness :
  cmd.submitted
    (cmd.runClient comma_flags (B "square") None echo_server comma_input
       [2%nat; 1%nat]).1
  = [B "1"; B "2"; B "3"].
Proof.
  apply (proj2 (runClient_submits_tokens comma_flags (B "square") echo_server
                  (fun _ payload => cmd.Complete payload) comma_input
                  [2%nat; 1%nat]
                  ltac:(discriminate)
                  ltac:(reflexivity)
                  ltac:(apply (bool_decide_unpack _); vm_compute; exact I))).
Defined.

(** C9 as stated fails: with the default delimiter the input ["\r\n"]
    splits at the newline into the non-empty token ["\r"], but no job is
    submitted for it: the scanner drops the carriage return and the token
    is skipped as empty. *)
Lemma runClient_carriage_return_line :
  cmd.delimited_tokens default_flags.(cmd.delimiter) [CR; LF] = [[CR]]
  ∧ cmd.runClient default_flags (B "square") None echo_server [CR; LF] []
    = ([], None).
Proof. split; vm_compute; reflexivity. Qed.

(* ------------------------------------------------------------------ *)
(** ** More on the decoder: framing and malformed payloads             *)
(* ------------------------------------------------------------------ *)

Module FramingFacts.
Import GoLib GoLibFacts worker DecodeFacts.

Lemma slice_app_l (s t : bytes) (i j : nat) :
  (j ≤ length s)%nat → slice (s ++ t) i j = slice s i j.
Proof.
  intros Hj. unfold slice. destruct (decide (i ≤ j)%nat) as [Hij|Hij].
  - rewrite drop_app_le by lia. rewrite take_app_le; [done|].
    rewrite length_drop. lia.
  - by replace (j - i)%nat with 0%nat by lia.
Qed.

(** The number of pieces is bounded by the number of separators. *)
Lemma SplitN_length (s : bytes) (c : byte) (n : nat) :
  (length (SplitN s [c] n) ≤ S (length (filter (fun b => b = c) s)))%nat.
Proof.
  revert s. induction n as [|n IH]; intros s; [simpl; lia|].
  destruct n as [|n]; [simpl; lia|].
  destruct (Index s [c]) as [j|] eqn:Hj.
  - destruct (Index_byte_Some _ _ _ Hj) as (h & t & -> & Hh & <-).
    rewrite SplitN_byte_step by done.
    rewrite filter_app, filter_cons_True by done.
    rewrite length_app. cbn [length]. specialize (IH t). lia.
  - cbn [SplitN]. rewrite Hj. simpl. lia.
Qed.

End FramingFacts.

Section framing_properties.
Import GoLib GoLibFacts worker DecodeFacts FramingFacts jobs.

Variable NewPT : N -> rt.PT * option error.

(** X1.  What [decodeInPack] consumes.  Whenever it reports an error it
    has consumed nothing; whenever it reports none it returns a packet
    (with no agent set yet) and has consumed the 12 bytes of the header
    plus the declared payload length, which is never more than the input
    holds. *)
Theorem decodeInPack_consumed (data : bytes) (p : option inPack) (l : nat)
    (e : option error) :
  decodeInPack NewPT data = (p, l, e) →
  (e ≠ None → l = 0%nat)
  ∧ (e = None →
     (∃ inpack, p = Some inpack ∧ inpack.(a) = None)
     ∧ l = (12 + declared_length data)%nat
     ∧ (12 ≤ l ≤ length data)%nat).
Proof.
  destruct (decide (12 + declared_length data ≤ length data)%nat)
    as [Hlen|Hshort].
  - rewrite decodeInPack_complete by done. cbn zeta.
    destruct (NewPT _) as [pt [err|]]; intros [= <- <- <-].
    + split; [done|]. intros [=].
    + split; [done|]. intros _. unfold rt.MinPacketLength.
      split_and!; [|lia|lia|lia].
      repeat case_decide; repeat case_match; eauto.
  - unfold decodeInPack, declared_length, rt.MinPacketLength in *.
    destruct (decide (length data < 12)%nat).
    + intros [= <- <- <-]. split; [done|]. intros [=].
    + rewrite decide_True by lia.
      intros [= <- <- <-]. split; [done|]. intros [=].
Qed.

(** X2.  Framing on a stream.  Bytes that follow a complete packet have
    no influence on its decoding: the three results on [pkt ++ rest] are
    those on [pkt] alone, and when a packet is returned without error, what
    is left after the consumed bytes is [rest], from where the next packet
    can be decoded. *)
Theorem decodeInPack_stream (pkt rest : bytes) :
  length pkt = (12 + declared_length pkt)%nat →
  decodeInPack NewPT (pkt ++ rest) = decodeInPack NewPT pkt
  ∧ (∀ p l, decodeInPack NewPT (pkt ++ rest) = (Some p, l, None) →
            drop l (pkt ++ rest) = rest).
Proof.
  intros Hlen.
  assert (Hdecl : declared_length (pkt ++ rest) = declared_length pkt).
  { unfold declared_length. by rewrite slice_app_l by lia. }
  assert (Heq : decodeInPack NewPT (pkt ++ rest) = decodeInPack NewPT pkt).
  { rewrite !decodeInPack_complete
      by (rewrite ?Hdecl, ?length_app; unfold rt.MinPacketLength; lia).
    cbn zeta. rewrite Hdecl. unfold rt.MinPacketLength.
    by rewrite !slice_app_l by lia. }
  split; [done|]. intros p l Hdec.
  rewrite decodeInPack_complete in Hdec
    by (rewrite Hdecl, length_app; unfold rt.MinPacketLength; lia).
  cbn zeta in Hdec.
  destruct (NewPT _) as [pt [err|]]; [done|].
  injection Hdec as _ <-.
  rewrite Hdecl. unfold rt.MinPacketLength.
  replace (declared_length pkt + 12)%nat with (length pkt) by lia.
  apply drop_app_length.
Qed.

(** X3.  Assignments with too few fields.  When the payload of a
    JOB_ASSIGN packet holds fewer than two NUL bytes, or that of a
    JOB_ASSIGN_UNIQ packet fewer than three, [decodeInPack] reports no
    error: it consumes the packet and returns a job whose handle, function
    name, unique id and data are all empty. *)
Theorem decodeInPack_assignment_too_short (data : bytes) (pt : rt.PT)
    (nuls : nat) :
  (12 + declared_length data ≤ length data)%nat →
  NewPT (Uint32 (slice data 4 8)) = (pt, None) →
  (pt = rt.PT_JobAssign ∧ nuls = 2%nat)
  ∨ (pt = rt.PT_JobAssignUniq ∧ nuls = 3%nat) →
  (length (filter (fun b => b = NUL)
             (slice data 12 (declared_length data + 12))) < nuls)%nat →
  decodeInPack NewPT data =
    (Some {| dataType := pt; data := []; handle := []; uniqueId := [];
             fn := []; a := None |},
     (declared_length data + 12)%nat, None).
Proof.
  intros Hlen Hpt Hkind Hnuls.
  rewrite decodeInPack_complete by done. cbn zeta.
  unfold rt.MinPacketLength. rewrite Hpt.
  set (dt := slice data 12 (declared_length data + 12)) in *.
  destruct Hkind as [[-> ->]|[-> ->]].
  - rewrite decide_True by done.
    pose proof (SplitN_length dt NUL 3) as Hpieces.
    destruct (SplitN dt [NUL] 3) as [|s0 [|s1 [|s2 [|s3 ps]]]];
      simpl in Hpieces; try done; lia.
  - rewrite decide_False by done. rewrite decide_True by done.
    pose proof (SplitN_length dt NUL 4) as Hpieces.
    destruct (SplitN dt [NUL] 4) as [|s0 [|s1 [|s2 [|s3 [|s4 ps]]]]];
      simpl in Hpieces; try done; lia.
Qed.

(** X4.  Error packets.  Decoding a complete ERROR packet whose payload is
    [code ++ NUL ++ text], with no NUL in [code], and asking the job for
    its error gives the code and the text, NULs of the text included; a
    payload without NUL gives the "not an error data" error; and a packet
    of any other type has no error. *)
Theorem decodeInPack_error_text (data code text : bytes) (pt : rt.PT) :
  (12 + declared_length data ≤ length data)%nat →
  NewPT (Uint32 (slice data 4 8)) = (pt, None) →
  ∃ inpack,
    decodeInPack NewPT data
      = (Some inpack, (declared_length data + 12)%nat, None)
    ∧ (pt ≠ rt.PT_Error → Err inpack = None)
    ∧ (pt = rt.PT_Error → NUL ∉ code →
       slice data 12 (declared_length data + 12) = code ++ NUL :: text →
       Err inpack = Some (ErrorText code text))
    ∧ (pt = rt.PT_Error →
       NUL ∉ slice data 12 (declared_length data + 12) →
       Err inpack
       = Some (NotErrorData (slice data 12 (declared_length data + 12)))).
Proof.
  intros Hlen Hpt.
  rewrite decodeInPack_complete by done. cbn zeta.
  unfold rt.MinPacketLength. rewrite Hpt.
  eexists. split; [reflexivity|]. split_and!.
  - intros Hne. unfold Err.
    repeat first [case_decide | case_match]; simpl in *; congruence.
  - intros -> Hcode Hpayload. rewrite Hpayload.
    rewrite !decide_False by done. unfold Err.
    cbn [set_data set_dataType dataType worker.data getInPack].
    rewrite decide_True by done. unfold getError.
    by rewrite SplitN_byte_step, SplitN_one by done.
  - intros -> Hnone. rewrite !decide_False by done. unfold Err.
    cbn [set_data set_dataType dataType worker.data getInPack].
    rewrite decide_True by done. unfold getError.
    cbn [SplitN]. by rewrite Index_byte_none by done.
Qed.

End framing_properties.

Lemma decodeInPack_consumed_witness :
  (12 ≤ 22 ≤ length job_assign_packet)%nat.
Proof.
  destruct (decodeInPack_consumed worker.NewPT_gearman job_assign_packet
              _ 22%nat None ltac:(vm_compute; reflexivity)) as [_ Hok].
  destruct (Hok eq_refl) as (_ & _ & Hbounds). exact Hbounds.
Defined.

Lemma decodeInPack_stream_witness :
  worker.decodeInPack worker.NewPT_gearman
    (take 22 job_assign_packet ++ error_packet)
  = worker.decodeInPack worker.NewPT_gearman (take 22 job_assign_packet).
Proof.
  apply (decodeInPack_stream worker.NewPT_gearman (take 22 job_assign_packet)
           error_packet).
  vm_compute. reflexivity.
Defined.

Lemma decodeInPack_assignment_too_short_witness :
  worker.decodeInPack worker.NewPT_gearman short_assign_packet =
    (Some {| worker.dataType := rt.PT_JobAssign; worker.data := [];
             worker.handle := []; worker.uniqueId := []; worker.fn := [];
             worker.a := None |}, 19%nat, None).
Proof.
  apply (decodeInPack_assignment_too_short worker.NewPT_gearman
           short_assign_packet rt.PT_JobAssign 2%nat).
  - vm_compute. lia.
  - reflexivity.
  - left. split; reflexivity.
  - vm_compute. lia.
Defined.

Lemma decodeInPack_error_text_witness :
  ∃ inpack,
    worker.decodeInPack worker.NewPT_gearman error_packet
      = (Some inpack, 18%nat, None)
    ∧ jobs.Err inpack = Some (jobs.ErrorText (B "E7") (B "bad")).
Proof.
  destruct (decodeInPack_error_text worker.NewPT_gearman error_packet
              (B "E7") (B "bad") rt.PT_Error
              ltac:(vm_compute; lia) ltac:(reflexivity))
    as (inpack & Hdec & _ & Herr & _).
  exists inpack. split; [exact Hdec|].
  apply Herr; [reflexivity| |reflexivity].
  apply (bool_decide_unpack _). vm_compute. exact I.
Defined.

(* ------------------------------------------------------------------ *)
(** ** The packets a job sends while it runs                           *)
(* ------------------------------------------------------------------ *)

Module JobFacts.
Import GoLib GoLibFacts worker RegisterFacts jobs strconv.

Lemma copy_prefix (h : bytes) (k : nat) :
  copy (rt.NewBuffer (length h + k)) h = h ++ replicate k NUL.
Proof.
  unfold copy, rt.NewBuffer. rewrite length_replicate.
  rewrite take_ge by lia. rewrite drop_replicate.
  by replace (length h + k - length h)%nat with k by lia.
Qed.

(** Copying [d] behind a prefix and one zero byte of a zeroed tail. *)
Lemma copy_at_field (h d : bytes) (k : nat) :
  copy_at (h ++ replicate (S (length d) + k) NUL) (length h + 1) d
  = h ++ NUL :: d ++ replicate k NUL.
Proof.
  unfold copy_at, copy.
  replace (h ++ replicate (S (length d) + k) NUL)
    with ((h ++ [NUL]) ++ replicate (length d + k) NUL)
    by (by rewrite <- app_assoc).
  replace (length h + 1)%nat with (length (h ++ [NUL]))
    by (rewrite length_app; simpl; lia).
  rewrite take_app_length, drop_app_length, length_replicate.
  rewrite take_ge by lia. rewrite drop_replicate.
  replace (length d + k - length d)%nat with k by lia.
  by rewrite <- app_assoc.
Qed.

Lemma data_payload (h d : bytes) :
  copy_at (copy (rt.NewBuffer (length h + length d + 1)) h) (length h + 1) d
  = h ++ NUL :: d.
Proof.
  replace (length h + length d + 1)%nat with (length h + (S (length d) + 0))%nat
    by lia.
  rewrite copy_prefix, copy_at_field. by rewrite app_nil_r.
Qed.

Lemma status_payload (h n d : bytes) :
  copy_at
    (copy_at (copy (rt.NewBuffer (length h + length n + length d + 2)) h)
       (length h + 1) n)
    (length h + length n + 2) d
  = h ++ NUL :: n ++ NUL :: d.
Proof.
  replace (length h + length n + length d + 2)%nat
    with (length h + (S (length n) + S (length d)))%nat by lia.
  rewrite copy_prefix, copy_at_field.
  replace (h ++ NUL :: n ++ replicate (S (length d)) NUL)
    with ((h ++ NUL :: n) ++ replicate (S (length d) + 0) NUL)
    by (rewrite <- app_assoc; simpl; by rewrite Nat.add_0_r).
  replace (length h + length n + 2)%nat with (length (h ++ NUL :: n) + 1)%nat
    by (rewrite length_app; simpl; lia).
  rewrite copy_at_field. by rewrite app_nil_r, <- app_assoc.
Qed.

(** An accumulator stays behind the digits. *)
Lemma digits_acc (fuel : nat) :
  ∀ n acc, digits fuel n acc = digits fuel n [] ++ acc.
Proof.
  induction fuel as [|fuel IH]; intros n acc; simpl; [done|].
  destruct (decide (n < 10)); [done|].
  rewrite (IH _ (_ :: acc)), (IH _ [_]). by rewrite <- app_assoc.
Qed.

Lemma digit_value (n : N) : Byte.to_N (byte_of (48 + n mod 10)) = 48 + n mod 10.
Proof.
  rewrite to_N_byte_of. pose proof (N.mod_lt n 10 ltac:(lia)).
  apply N.mod_small. lia.
Qed.

Lemma digits_no_NUL (fuel : nat) (n : N) : NUL ∉ digits fuel n [].
Proof.
  revert n. induction fuel as [|fuel IH]; intros n; simpl.
  - apply not_elem_of_nil.
  - assert (Hd : NUL ≠ byte_of (48 + n mod 10)).
    { intros Heq. apply (f_equal Byte.to_N) in Heq.
      rewrite digit_value in Heq. change (Byte.to_N NUL) with 0 in Heq.
      destruct (n mod 10); lia. }
    destruct (decide (n < 10)).
    + apply not_elem_of_cons. split; [done|apply not_elem_of_nil].
    + rewrite digits_acc. apply not_elem_of_app. split; [apply IH|].
      apply not_elem_of_cons. split; [done|apply not_elem_of_nil].
Qed.

Lemma Itoa_no_NUL (i : Z) : NUL ∉ Itoa i.
Proof.
  destruct i; cbn [Itoa].
  - apply digits_no_NUL.
  - apply digits_no_NUL.
  - apply not_elem_of_cons. split; [done|apply digits_no_NUL].
Qed.

Lemma decimal_value_snoc (ds : bytes) (b : byte) :
  decimal_value (ds ++ [b]) = 10 * decimal_value ds + (Byte.to_N b - 48).
Proof. unfold decimal_value. by rewrite fold_left_app. Qed.

Lemma decimal_value_digits (fuel : nat) :
  ∀ n, n < 10 ^ N.of_nat fuel → decimal_value (digits fuel n []) = n.
Proof.
  induction fuel as [|fuel IH]; intros n Hn.
  - simpl in Hn. assert (n = 0) as -> by lia. done.
  - cbn [digits]. destruct (decide (n < 10)) as [Hsmall|Hbig].
    + unfold decimal_value. cbn [fold_left]. rewrite digit_value.
      rewrite N.mod_small by done. lia.
    + rewrite digits_acc, decimal_value_snoc, digit_value.
      rewrite IH.
      * pose proof (N.div_mod n 10 ltac:(lia)) as Hdm.
        revert Hdm. generalize (n / 10) (n mod 10). intros q r Hdm. lia.
      * apply N.Div0.div_lt_upper_bound.
        rewrite Nat2N.inj_succ, N.pow_succ_r' in Hn. done.
Qed.

Lemma Itoa_value (n : N) : decimal_value (Itoa (Z.of_N n)) = n.
Proof.
  destruct n as [|p]; [done|]. cbn [Z.of_N Itoa].
  apply decimal_value_digits.
  rewrite Nat2N.inj_succ, N2Nat.id.
  pose proof (N.log2_spec (N.pos p) ltac:(lia)) as [_ Hlt].
  eapply N.lt_le_trans; [exact Hlt|].
  apply N.pow_le_mono_l. lia.
Qed.

End JobFacts.

Section job_packet_properties.
Import GoLib GoLibFacts worker RegisterFacts jobs strconv JobFacts.

(** X5.  Data and warning packets.  For a job that came from agent [ag],
    [SendData] writes to that agent a WORK_DATA packet, and [SendWarning] a
    WORK_WARNING packet, whose payload is the job's handle, a NUL byte and
    the data, unchanged; the handle field of the packet stays empty.  When
    the handle holds no NUL, splitting the payload at the first NUL gives
    back the handle and the data, whatever bytes the data holds. *)
Theorem SendData_payload (inpack : inPack) (ag : agent) (d : bytes) :
  inpack.(a) = Some ag →
  SendData inpack d
    = Some (EWrite ag {| out_dataType := rt.PT_WorkData;
                         out_data := inpack.(handle) ++ NUL :: d;
                         out_handle := [] |})
  ∧ SendWarning inpack d
    = Some (EWrite ag {| out_dataType := rt.PT_WorkWarning;
                         out_data := inpack.(handle) ++ NUL :: d;
                         out_handle := [] |})
  ∧ (NUL ∉ inpack.(handle) →
     SplitN (inpack.(handle) ++ NUL :: d) [NUL] 2 = [inpack.(handle); d]).
Proof.
  intros Hag. unfold SendData, SendWarning, write_to_agent.
  rewrite Hag, data_payload. split_and!; [done|done|].
  intros Hh. by rewrite SplitN_byte_step, SplitN_one.
Qed.

(** X6.  Status packets.  [UpdateStatus] writes a WORK_STATUS packet whose
    payload is the handle, a NUL, the numerator in decimal, a NUL and the
    denominator in decimal.  When the handle holds no NUL the payload
    splits at its NULs into exactly these three fields, and the decimal
    text of a non-negative number reads back as that number. *)
Theorem UpdateStatus_payload (inpack : inPack) (ag : agent)
    (numerator denominator : Z) :
  inpack.(a) = Some ag →
  let payload :=
    inpack.(handle) ++ NUL :: Itoa numerator ++ NUL :: Itoa denominator in
  UpdateStatus inpack numerator denominator
    = Some (EWrite ag {| out_dataType := rt.PT_WorkStatus;
                         out_data := payload; out_handle := [] |})
  ∧ (NUL ∉ inpack.(handle) →
     SplitN payload [NUL] 3
     = [inpack.(handle); Itoa numerator; Itoa denominator])
  ∧ ((0 ≤ numerator)%Z →
     decimal_value (Itoa numerator) = Z.to_N numerator).
Proof.
  intros Hag payload. unfold UpdateStatus, write_to_agent.
  rewrite Hag, status_payload. split_and!; [done| |].
  - intros Hh. subst payload.
    rewrite SplitN_byte_step by done.
    rewrite SplitN_byte_step by apply Itoa_no_NUL.
    by rewrite SplitN_one.
  - intros Hpos. rewrite <- (Z2N.id numerator) at 1 by done.
    apply Itoa_value.
Qed.

(** X7.  Registration packets tell functions apart.  Two functions whose
    registration packets are equal have the same name and the same
    timeout (timeouts being [uint32] values): no two entries of a function
    table are announced by the same packet. *)
Theorem prepFuncOutpack_injective (name1 name2 : bytes) (t1 t2 : N) :
  t1 < 2 ^ 32 → t2 < 2 ^ 32 →
  prepFuncOutpack name1 t1 = prepFuncOutpack name2 t2 →
  name1 = name2 ∧ t1 = t2.
Proof.
  intros H1 H2 Heq.
  destruct (decide (t1 = 0)) as [->|Hn1], (decide (t2 = 0)) as [->|Hn2].
  - rewrite !prepFuncOutpack_no_timeout in Heq. by injection Heq as ->.
  - rewrite prepFuncOutpack_no_timeout, prepFuncOutpack_timeout in Heq
      by done. discriminate.
  - rewrite prepFuncOutpack_no_timeout, prepFuncOutpack_timeout in Heq
      by done. discriminate.
  - rewrite !prepFuncOutpack_timeout in Heq by done.
    injection Heq as Heq.
    destruct (PutUint32_big_endian t1 H1) as (a0 & a1 & a2 & a3 & Hp1 & Hv1).
    destruct (PutUint32_big_endian t2 H2) as (b0 & b1 & b2 & b3 & Hp2 & Hv2).
    rewrite Hp1, Hp2 in Heq.
    apply app_inj_2 in Heq as [-> Htail]; [|done].
    injection Htail as -> -> -> ->. split; [done|congruence].
Qed.

End job_packet_properties.

Lemma SendData_payload_witness :
  jobs.SendData (example_job (B "rev")) (B "x" ++ [NUL] ++ B "y")
  = Some (worker.EWrite 7%nat
            {| worker.out_dataType := rt.PT_WorkData;
               worker.out_data := B "H:1" ++ NUL :: B "x" ++ [NUL] ++ B "y";
               worker.out_handle := [] |}).
Proof.
  apply (proj1 (SendData_payload (example_job (B "rev")) 7%nat
                  (B "x" ++ [NUL] ++ B "y") eq_refl)).
Defined.

Lemma UpdateStatus_payload_witness :
  jobs.UpdateStatus (example_job (B "rev")) 3 10
  = Some (worker.EWrite 7%nat
            {| worker.out_dataType := rt.PT_WorkStatus;
               worker.out_data :=
                 B "H:1" ++ NUL :: B "3" ++ NUL :: B "10";
               worker.out_handle := [] |}).
Proof.
  apply (proj1 (UpdateStatus_payload (example_job (B "rev")) 7%nat 3 10
                  eq_refl)).
Defined.

Lemma prepFuncOutpack_injective_witness :
  B "slow" = B "slow" ∧ 1 = 1.
Proof.
  apply (prepFuncOutpack_injective (B "slow") (B "slow") 1 1);
    [reflexivity | reflexivity | reflexivity].
Defined.

(* ------------------------------------------------------------------ *)
(** ** The function table, execution and the worker's life cycle       *)
(* ------------------------------------------------------------------ *)

Module WorkerFacts.
Import GoLib worker ExecFacts ReadyFacts RegisterFacts lifecycle.

Lemma set_funcs_id (w : Worker) : set_funcs w w.(funcs) = w.
Proof. by destruct w. Qed.

Lemma set_funcs_twice (w : Worker) (m1 m2 : gmap bytes jobFunc) :
  set_funcs (set_funcs w m1) m2 = set_funcs w m2.
Proof. done. Qed.

(** [exec] on a job whose function is not in the table. *)
Lemma exec_unknown (w : Worker) (tie : bool) (inpack : inPack) :
  w.(shuttingDown) = false → w.(funcs) !! inpack.(fn) = None →
  exec w tie inpack
  = Done (w, [], Some (Errorf "The function does not exist: %s" inpack.(fn))).
Proof.
  intros Hshut Hnone. unfold exec.
  rewrite set_activeJobs_undo. cbn [shuttingDown funcs set_activeJobs].
  by rewrite Hshut, Hnone.
Qed.

(** [exec] on a worker that is shutting down. *)
Lemma exec_shutting_down (w : Worker) (tie : bool) (inpack : inPack) :
  w.(shuttingDown) = true → exec w tie inpack = Done (w, [], None).
Proof.
  intros Hshut. unfold exec.
  rewrite set_activeJobs_undo. cbn [shuttingDown set_activeJobs].
  by rewrite Hshut.
Qed.

(** [exec] on a worker that is not running any more. *)
Lemma exec_stopped (w : Worker) (tie : bool) (inpack : inPack)
    (jf : jobFunc) :
  w.(running) = false → w.(shuttingDown) = false →
  w.(funcs) !! inpack.(fn) = Some jf →
  exec w tie inpack =
    match call tie jf inpack with
    | Blocked => Blocked
    | Panicked v =>
        Done (w, [], Some match v with
                          | PanicError e => e
                          | PanicOther _ => ErrUnknown
                          end)
    | Done _ => Done (w, [], None)
    end.
Proof.
  intros Hrun Hshut Hjf. unfold exec.
  rewrite set_activeJobs_undo. cbn [shuttingDown running funcs set_activeJobs].
  rewrite Hshut, Hjf, Hrun.
  by destruct (call tie jf inpack) as [r|[e|v]|].
Qed.

Lemma written_to_others (ag : agent) (p : outPack) (ags : list agent) :
  ag ∉ ags → written_to ag (map (fun v => EWrite v p) ags) = [].
Proof.
  induction ags as [|x ags IH]; intros Hnotin; [done|].
  apply not_elem_of_cons in Hnotin as [Hx Hnotin].
  unfold written_to in *. simpl.
  rewrite decide_False by done. by apply IH.
Qed.

(** What one agent receives of a broadcast when it is listed once. *)
Lemma written_to_broadcast (w : Worker) (ag : agent) (p : outPack) :
  NoDup w.(agents) → ag ∈ w.(agents) →
  written_to ag (broadcast w p) = [p].
Proof.
  unfold broadcast.
  induction w.(agents) as [|ag' ags IH]; intros Hnd Hin.
  - by apply elem_of_nil in Hin.
  - apply NoDup_cons in Hnd as [Hnotin Hnd].
    change (map (fun v => EWrite v p) (ag' :: ags))
      with ([EWrite ag' p] ++ map (fun v => EWrite v p) ags).
    unfold written_to at 1. rewrite omap_app.
    fold (written_to ag (map (fun v => EWrite v p) ags)). simpl.
    destruct (decide (ag' = ag)) as [->|Hne].
    + simpl. by rewrite written_to_others.
    + simpl. apply elem_of_cons in Hin as [->|Hin]; [done|]. by apply IH.
Qed.

Lemma written_to_app (ag : agent) (tr1 tr2 : list event) :
  written_to ag (tr1 ++ tr2) = written_to ag tr1 ++ written_to ag tr2.
Proof. unfold written_to. apply omap_app. Qed.

Lemma written_to_register_all (w : Worker) (ag : agent)
    (order : list (bytes * jobFunc)) :
  NoDup w.(agents) → ag ∈ w.(agents) →
  written_to ag (register_all w order) = table_packets order.
Proof.
  intros Hnd Hin. unfold register_all, table_packets.
  induction order as [|[name jf] order IH]; [done|].
  cbn [flat_map map]. rewrite written_to_app, IH.
  unfold addFunc. by rewrite written_to_broadcast.
Qed.

Lemma connect_all_ok (conn : agent -> option error) (ags : list agent) :
  (∀ ag, ag ∈ ags → conn ag = None) →
  connect_all conn ags = (map EConnect ags, None).
Proof.
  induction ags as [|ag ags IH]; intros Hok; [done|].
  simpl. rewrite Hok by apply list_elem_of_here.
  rewrite IH; [done|]. intros ag' Hin. apply Hok. by apply list_elem_of_further.
Qed.

Lemma connect_all_fails (conn : agent -> option error)
    (pre post : list agent) (ag : agent) (e : error) :
  (∀ ag', ag' ∈ pre → conn ag' = None) → conn ag = Some e →
  connect_all conn (pre ++ ag :: post) = (map EConnect (pre ++ [ag]), Some e).
Proof.
  intros Hpre Hag. induction pre as [|x pre IH]; simpl.
  - by rewrite Hag.
  - rewrite Hpre by apply list_elem_of_here.
    rewrite IH; [done|]. intros ag' Hin. apply Hpre.
    by apply list_elem_of_further.
Qed.

Lemma connect_all_error (conn : agent -> option error) (ags : list agent)
    (tr : list event) (e : error) :
  connect_all conn ags = (tr, Some e) → ∃ ag, ag ∈ ags ∧ conn ag = Some e.
Proof.
  revert tr. induction ags as [|ag ags IH]; intros tr; simpl; [done|].
  destruct (conn ag) as [e'|] eqn:Hag.
  - intros [= <- <-]. exists ag. split; [apply list_elem_of_here|done].
  - destruct (connect_all conn ags) as [tr' e'] eqn:Hrest.
    intros [= <- ->]. destruct (IH _ eq_refl) as (ag' & Hin & Hc).
    exists ag'. split; [by apply list_elem_of_further|done].
Qed.

Lemma connect_all_None (conn : agent -> option error) (ags : list agent)
    (tr : list event) :
  connect_all conn ags = (tr, None) →
  (∀ ag, ag ∈ ags → conn ag = None) ∧ tr = map EConnect ags.
Proof.
  revert tr. induction ags as [|ag ags IH]; intros tr; simpl.
  - intros [= <-]. split; [|done]. by intros ag ?%elem_of_nil.
  - destruct (conn ag) as [e'|] eqn:Hag; [done|].
    destruct (connect_all conn ags) as [tr' e'] eqn:Hrest.
    intros [= <- ->]. destruct (IH _ eq_refl) as [Hall ->].
    split; [|done]. intros ag' [->|Hin]%elem_of_cons; [done|by apply Hall].
Qed.

Lemma connects_connect (ags : list agent) :
  connects (map EConnect ags) = ags.
Proof. induction ags as [|ag ags IH]; [done|]. simpl. by rewrite IH. Qed.

Lemma connects_app (tr1 tr2 : list event) :
  connects (tr1 ++ tr2) = connects tr1 ++ connects tr2.
Proof. unfold connects. apply omap_app. Qed.

Lemma connects_broadcast (w : Worker) (p : outPack) :
  connects (broadcast w p) = [].
Proof. unfold broadcast. by induction w.(agents). Qed.

Lemma connects_register_all (w : Worker) (order : list (bytes * jobFunc)) :
  connects (register_all w order) = [].
Proof.
  unfold register_all. induction order as [|[name jf] order IH]; [done|].
  cbn [flat_map]. rewrite connects_app, IH. unfold addFunc.
  by rewrite connects_broadcast.
Qed.

Lemma writes_connect (ags : list agent) : writes (map EConnect ags) = [].
Proof. by induction ags. Qed.

Lemma written_to_connect (ag : agent) (ags : list agent) :
  written_to ag (map EConnect ags) = [].
Proof. by induction ags. Qed.

(** [Ready] when every connection attempt succeeds. *)
Lemma Ready_connected (w : Worker) (conn : agent -> option error)
    (order : list (bytes * jobFunc)) :
  w.(agents) ≠ [] → w.(funcs) ≠ ∅ →
  (∀ ag, ag ∈ w.(agents) → conn ag = None) →
  Ready w conn order
  = (set_ready (if w.(once) then w else set_once w true) true,
     map EConnect w.(agents)
     ++ (if w.(once) then [] else register_all w order), None).
Proof.
  intros Hags Hfuncs Hconn. unfold Ready.
  rewrite decide_False by (by destruct w.(agents)).
  rewrite decide_False by (by rewrite map_size_empty_iff).
  rewrite connect_all_ok by done. by destruct w.(once).
Qed.

(** [Ready] when it returns an error. *)
Lemma Ready_error (w : Worker) (conn : agent -> option error)
    (order : list (bytes * jobFunc)) (w' : Worker) (tr : list event)
    (e : error) :
  Ready w conn order = (w', tr, Some e) →
  w' = w ∧ writes tr = []
  ∧ (w.(agents) = [] ∨ w.(funcs) = ∅
     ∨ ∃ ag, ag ∈ w.(agents) ∧ conn ag = Some e).
Proof.
  unfold Ready.
  destruct (decide (length w.(agents) = 0%nat)) as [Hlen|Hlen].
  { intros [= <- <- <-]. split_and!; [done..|]. left.
    by destruct w.(agents). }
  destruct (decide (size w.(funcs) = 0%nat)) as [Hsize|Hsize].
  { intros [= <- <- <-]. split_and!; [done..|]. right. left.
    by apply map_size_empty_iff. }
  pose proof (writes_connect_all conn w.(agents)) as Hw.
  destruct (connect_all conn w.(agents)) as [tr0 [e0|]] eqn:Hc.
  - intros [= <- <- <-]. split_and!; [done..|]. right. right.
    by eapply connect_all_error.
  - by destruct w.(once).
Qed.




End WorkerFacts.

Section worker_properties.
Import GoLib worker ExecFacts ReadyFacts RegisterFacts lifecycle WorkerFacts.

(** X8.  Adding and removing a function.  On a worker that does not know
    [funcname], [AddFunc] followed by [RemoveFunc] both succeed and leave
    the worker exactly as it was; a running worker has then told every
    server first that it can do the function and then that it cannot, a
    worker that is not running has told them nothing. *)
Theorem AddFunc_RemoveFunc_round_trip (w : Worker) (funcname : bytes)
    (f : JobFunc) (timeout : N) :
  w.(funcs) !! funcname = None →
  ∃ w1 tr1 tr2,
    AddFunc w funcname f timeout = (w1, tr1, None)
    ∧ w1.(funcs) !! funcname = Some (mkJobFunc f timeout)
    ∧ RemoveFunc w1 funcname = (w, tr2, None)
    ∧ writes (tr1 ++ tr2)
      = if w.(running) then
          map (fun ag => (ag, prepFuncOutpack funcname timeout)) w.(agents)
          ++ map (fun ag => (ag, cantDo funcname)) w.(agents)
        else [].
Proof.
  intros Hnone.
  set (w1 := set_funcs w (<[funcname := mkJobFunc f timeout]> w.(funcs))).
  assert (Hlook : w1.(funcs) !! funcname = Some (mkJobFunc f timeout))
    by apply lookup_insert_eq.
  assert (Hback : set_funcs w1 (delete funcname w1.(funcs)) = w).
  { subst w1. cbn [funcs set_funcs]. rewrite delete_insert_id by done.
    by destruct w. }
  assert (Hadd : AddFunc w funcname f timeout
                 = (w1, if w.(running) then addFunc w1 funcname timeout
                        else [], None)).
  { unfold AddFunc. rewrite Hnone. fold w1.
    change (running w1) with (running w). by destruct w.(running). }
  assert (Hrem : RemoveFunc w1 funcname
                 = (w, if w.(running) then removeFunc w funcname else [],
                    None)).
  { unfold RemoveFunc. rewrite Hlook, Hback. by destruct w.(running). }
  eexists _, _, _. split_and!; [exact Hadd|exact Hlook|exact Hrem|].
  destruct w.(running); [|done].
  rewrite writes_app. unfold addFunc, removeFunc.
  by rewrite !writes_broadcast.
Qed.

(** X9.  The function table decides what a job runs.  After [AddFunc]
    has added a function without timeout to a running worker, a job for
    that name is answered from the values the function returns; after
    [RemoveFunc] has removed a function, a job for that name gets no
    packet and [exec] returns the function-does-not-exist error. *)
Theorem exec_follows_function_table (w : Worker) (tie : bool)
    (inpack : inPack) (ag : agent) :
  w.(running) = true → w.(shuttingDown) = false →
  inpack.(a) = Some ag →
  (∀ f elapsed d e,
     w.(funcs) !! inpack.(fn) = None →
     f inpack = Returns elapsed d e →
     let w1 := (AddFunc w inpack.(fn) f 0).1.1 in
     exec w1 tie inpack
     = Done (w1, [EWrite ag (result_outpack inpack
                               {| r_data := d; r_err := e |})], e))
  ∧ (is_Some (w.(funcs) !! inpack.(fn)) →
     let w2 := (RemoveFunc w inpack.(fn)).1.1 in
     exec w2 tie inpack
     = Done (w2, [],
             Some (Errorf "The function does not exist: %s" inpack.(fn)))).
Proof.
  intros Hrun Hshut Hag. split.
  - intros f elapsed d e Hnone Hf w1. subst w1.
    unfold AddFunc. rewrite Hnone. cbn [running set_funcs]. rewrite Hrun.
    cbn [fst].
    rewrite (exec_running _ tie inpack (mkJobFunc f 0));
      [|done|done|apply lookup_insert_eq].
    rewrite (call_direct tie _ inpack elapsed d e) by done.
    by rewrite Hag.
  - intros [jf Hjf] w2. subst w2.
    unfold RemoveFunc. rewrite Hjf. cbn [running set_funcs]. rewrite Hrun.
    cbn [fst]. apply exec_unknown; [done|]. apply lookup_delete_eq.
Qed.

(** X10.  The footprint of [exec].  Whenever [exec] returns, the worker is
    as before (the counter of active jobs is back at its value), and at
    most one packet has been written.  A packet is only written by a
    running worker that is not shutting down; it goes to the agent the job
    came from and carries the job's handle; and it is a WORK_COMPLETE
    packet exactly when [exec] returns no error. *)
Theorem exec_footprint (w : Worker) (tie : bool) (inpack : inPack)
    (w' : Worker) (tr : list event) (err : option error) :
  exec w tie inpack = Done (w', tr, err) →
  w' = w
  ∧ (length tr ≤ 1)%nat
  ∧ (∀ ev, ev ∈ tr →
       ∃ ag p, ev = EWrite ag p
               ∧ inpack.(a) = Some ag
               ∧ p.(out_handle) = inpack.(handle)
               ∧ w.(running) = true ∧ w.(shuttingDown) = false
               ∧ (p.(out_dataType) = rt.PT_WorkComplete ↔ err = None)).
Proof.
  destruct w.(shuttingDown) eqn:Hshut.
  { rewrite exec_shutting_down by done. intros [= <- <- <-].
    split_and!; [done|simpl; lia|]. by intros ev ?%elem_of_nil. }
  destruct (w.(funcs) !! inpack.(fn)) as [jf|] eqn:Hjf.
  2:{ rewrite exec_unknown by done. intros [= <- <- <-].
      split_and!; [done|simpl; lia|]. by intros ev ?%elem_of_nil. }
  destruct w.(running) eqn:Hrun.
  - rewrite (exec_running w tie inpack jf) by done.
    destruct (call tie jf inpack) as [r|v|]; [|intros [= <- <- <-]|done].
    + destruct inpack.(a) as [ag|]; intros [= <- <- <-].
      * split_and!; [done|simpl; lia|].
        intros ev ->%list_elem_of_singleton. exists ag, (result_outpack inpack r).
        split_and!; try done. unfold result_outpack. simpl.
        destruct r.(r_err); [|done].
        split; [|done]. by destruct (decide _).
      * split_and!; [done|simpl; lia|]. by intros ev ?%elem_of_nil.
    + split_and!; [done|simpl; lia|]. by intros ev ?%elem_of_nil.
  - rewrite (exec_stopped w tie inpack jf) by done.
    destruct (call tie jf inpack) as [r|v|]; [| |done];
      intros [= <- <- <-];
      (split_and!; [done|simpl; lia|]; by intros ev ?%elem_of_nil).
Qed.

(** X11.  When [exec] does not return.  [exec] never lets a panic
    escape, and it fails to return in one case only: the worker is not
    shutting down and the job's function, registered without timeout,
    never returns.  A function registered with a timeout cannot hold
    [exec] up. *)
Theorem exec_blocks_iff (w : Worker) (tie : bool) (inpack : inPack) :
  (∀ v, exec w tie inpack ≠ Panicked v)
  ∧ (exec w tie inpack = Blocked ↔
     w.(shuttingDown) = false
     ∧ ∃ jf, w.(funcs) !! inpack.(fn) = Some jf
             ∧ jf.(timeout) = 0 ∧ jf.(f) inpack = Hangs).
Proof.
  destruct w.(shuttingDown) eqn:Hshut.
  { rewrite exec_shutting_down by done. split; [done|].
    split; [done|]. by intros [? _]. }
  destruct (w.(funcs) !! inpack.(fn)) as [jf|] eqn:Hjf.
  2:{ rewrite exec_unknown by done. split; [done|].
      split; [done|]. by intros (_ & jf & ? & _). }
  assert (Hcall : call tie jf inpack = Blocked ↔
                  jf.(timeout) = 0 ∧ jf.(f) inpack = Hangs).
  { unfold call. destruct (decide (jf.(timeout) = 0)) as [Ht|Ht].
    - destruct (jf.(f) inpack); intuition congruence.
    - intuition congruence. }
  assert (Hexec : (∀ v, exec w tie inpack ≠ Panicked v)
                  ∧ (exec w tie inpack = Blocked ↔
                     call tie jf inpack = Blocked)).
  { destruct w.(running) eqn:Hrun.
    - rewrite (exec_running w tie inpack jf) by done.
      destruct (call tie jf inpack) as [r|v|]; [destruct inpack.(a)| |];
        intuition congruence.
    - rewrite (exec_stopped w tie inpack jf) by done.
      destruct (call tie jf inpack) as [r|v|]; intuition congruence. }
  destruct Hexec as [Hnopanic Hblocked]. split; [done|].
  rewrite Hblocked, Hcall. split.
  - intros [? ?]. split; [done|]. by exists jf.
  - intros (_ & jf' & [= <-] & ? & ?). done.
Qed.

(** X12.  When [Ready] succeeds.  [Ready] returns nil exactly when the
    worker has a server, has a function, and every connection attempt
    succeeds; it has then tried every server once, in order.  When it
    returns an error the worker is as before -- in particular not marked
    ready, the registration not used up -- and no packet has been
    written. *)
Theorem Ready_succeeds_iff (w : Worker) (conn : agent -> option error)
    (order : list (bytes * jobFunc)) :
  ∃ w' tr err,
    Ready w conn order = (w', tr, err)
    ∧ (err = None ↔
       w.(agents) ≠ [] ∧ w.(funcs) ≠ ∅
       ∧ ∀ ag, ag ∈ w.(agents) → conn ag = None)
    ∧ (err = None →
       w'.(ready) = true ∧ w'.(once) = true ∧ connects tr = w.(agents))
    ∧ (err ≠ None → w' = w ∧ writes tr = []).
Proof.
  destruct (Ready w conn order) as [[w' tr] [e|]] eqn:HR.
  - exists w', tr, (Some e). split; [done|].
    destruct (Ready_error _ _ _ _ _ _ HR) as (-> & Hw & Hwhy).
    split_and!; [|done|done].
    split; [done|]. intros (Hags & Hfuncs & Hconn). exfalso.
    destruct Hwhy as [?|[?|(ag & Hin & Hag)]]; [done|done|].
    rewrite Hconn in Hag by done. done.
  - exists w', tr, None. split; [done|].
    assert (Hok : w.(agents) ≠ [] ∧ w.(funcs) ≠ ∅
                  ∧ ∀ ag, ag ∈ w.(agents) → conn ag = None).
    { revert HR. unfold Ready.
      destruct (decide (length w.(agents) = 0%nat)) as [|Hlen]; [done|].
      destruct (decide (size w.(funcs) = 0%nat)) as [|Hsize]; [done|].
      destruct (connect_all conn w.(agents)) as [tr0 [e0|]] eqn:Hc; [done|].
      intros _. split_and!.
      - intros Hnil. by rewrite Hnil in Hlen.
      - intros Hempty. by rewrite Hempty, map_size_empty in Hsize.
      - by apply (connect_all_None _ _ _ Hc). }
    split_and!; [done| |done].
    intros _. destruct Hok as (Hags & Hfuncs & Hconn).
    rewrite Ready_connected in HR by done. injection HR as <- <-.
    split_and!.
    + by destruct w.(once).
    + by destruct w.(once) eqn:Honce.
    + rewrite connects_app, connects_connect.
      destruct w.(once); [|rewrite connects_register_all]; apply app_nil_r.
Qed.

(** X13.  [Ready] gives up at the first server that refuses.  When the
    servers before [ag] accept the connection and [ag] refuses it with
    error [e], [Ready] returns [e] after the attempt on [ag]: the servers
    after [ag] are not tried, the servers already connected are told
    nothing about the functions, and the worker is as before. *)
Theorem Ready_stops_at_first_refusal (w : Worker)
    (conn : agent -> option error) (order : list (bytes * jobFunc))
    (pre post : list agent) (ag : agent) (e : error) :
  w.(agents) = pre ++ ag :: post → w.(funcs) ≠ ∅ →
  (∀ ag', ag' ∈ pre → conn ag' = None) → conn ag = Some e →
  ∃ tr, Ready w conn order = (w, tr, Some e)
        ∧ connects tr = pre ++ [ag] ∧ writes tr = [].
Proof.
  intros Hags Hfuncs Hpre Hag. exists (map EConnect (pre ++ [ag])).
  split_and!; [|apply connects_connect|apply writes_connect].
  unfold Ready. rewrite Hags.
  rewrite decide_False by (rewrite length_app; simpl; lia).
  rewrite decide_False by (by rewrite map_size_empty_iff).
  by rewrite (connect_all_fails conn pre post ag e).
Qed.

(** X14.  A function added between [Ready] and [Work] is never
    announced.  On a worker that has been readied but is not running,
    [AddFunc] stores the function and broadcasts nothing; the main loop
    then starts without calling [Ready], and a further call of [Ready]
    does not register either: no server is ever told of the function. *)
Theorem AddFunc_after_Ready_not_announced (w : Worker) (funcname : bytes)
    (f : JobFunc) (timeout : N) (conn : agent -> option error)
    (order : list (bytes * jobFunc)) :
  w.(ready) = true → w.(once) = true → w.(running) = false →
  w.(funcs) !! funcname = None →
  ∃ w1,
    AddFunc w funcname f timeout = (w1, [], None)
    ∧ w1.(funcs) !! funcname = Some (mkJobFunc f timeout)
    ∧ Work w1 conn order = Done (set_running w1 true, [], w1.(agents))
    ∧ writes (Ready w1 conn order).1.2 = [].
Proof.
  intros Hready Honce Hrun Hnone.
  exists (set_funcs w (<[funcname := mkJobFunc f timeout]> w.(funcs))).
  split_and!.
  - unfold AddFunc. rewrite Hnone. cbn [running set_funcs]. by rewrite Hrun.
  - apply lookup_insert_eq.
  - unfold Work. cbn [ready set_funcs]. by rewrite Hready.
  - match goal with |- context [Ready ?w1 conn order] =>
      pose proof (Ready_cases w1 conn order) as Hc;
      destruct (Ready w1 conn order) as [[w2 tr] err]
    end.
    inversion Hc; subst; [done| |done].
    cbn [once set_funcs] in *. congruence.
Qed.

(** X15.  Re-registration repeats the initial registration.  On a worker
    whose servers are distinct, the packets [reRegisterFuncsForAgent]
    writes to a server are the packets the first successful [Ready] wrote
    to it: the same list when the map iteration takes the same order, a
    permutation of it when the order differs. *)
Theorem reRegister_repeats_Ready (w w' : Worker)
    (conn : agent -> option error) (order : list (bytes * jobFunc))
    (tr : list event) (ag : agent) :
  w.(once) = false → NoDup w.(agents) → ag ∈ w.(agents) →
  Ready w conn order = (w', tr, None) →
  written_to ag (reRegisterFuncsForAgent w' ag order) = written_to ag tr
  ∧ ∀ order', order' ≡ₚ order →
      written_to ag (reRegisterFuncsForAgent w' ag order')
        ≡ₚ written_to ag tr.
Proof.
  intros Honce Hnd Hin HR.
  assert (Htr : written_to ag tr = table_packets order).
  { revert HR. unfold Ready.
    destruct (decide (length w.(agents) = 0%nat)); [done|].
    destruct (decide (size w.(funcs) = 0%nat)); [done|].
    destruct (connect_all conn w.(agents)) as [tr0 [e0|]] eqn:Hc; [done|].
    rewrite Honce. intros [= <- <-].
    destruct (connect_all_None _ _ _ Hc) as [_ ->].
    rewrite written_to_app, written_to_connect.
    by apply written_to_register_all. }
  rewrite Htr, !written_to_reRegister. split; [done|].
  intros order' Hperm. rewrite written_to_reRegister.
  unfold table_packets. by apply fmap_Permutation.
Qed.

(** X16.  A job that finishes after [Close] is lost silently.  [Close]
    closes the servers of a running worker and marks it stopped; a second
    [Close] does nothing.  When a job's function returns after that
    -- with a result or with an error -- [exec] writes no packet and
    returns nil: neither the server nor the error handler hears of it. *)
Theorem Close_drops_late_results (w : Worker) (tie : bool)
    (inpack : inPack) (jf : jobFunc) (r : result) :
  w.(shuttingDown) = false → w.(funcs) !! inpack.(fn) = Some jf →
  call tie jf inpack = Done r →
  (Close w).2 = (if w.(running) then w.(agents) else [])
  ∧ Close (Close w).1 = ((Close w).1, [])
  ∧ exec (Close w).1 tie inpack = Done ((Close w).1, [], None).
Proof.
  intros Hshut Hjf Hcall.
  assert (Hstopped : (Close w).1.(running) = false
                     ∧ (Close w).1.(shuttingDown) = false
                     ∧ (Close w).1.(funcs) = w.(funcs)).
  { unfold Close. by destruct w.(running) eqn:Hrun. }
  destruct Hstopped as (Hrun' & Hshut' & Hfuncs').
  split_and!.
  - unfold Close. by destruct w.(running).
  - unfold Close at 1. by rewrite Hrun'.
  - rewrite (exec_stopped _ tie inpack jf); [|done|done|by rewrite Hfuncs'].
    by rewrite Hcall.
Qed.

(** X17.  [Reset] forgets every function.  [Reset] writes one
    RESET_ABILITIES packet, with empty payload, to every server, whether
    or not the worker is running.  Afterwards no name can be removed,
    every job is refused with the function-does-not-exist error and
    without a packet (a worker that is shutting down returns nil, as for
    every job), and [Ready] fails before it connects to any server: with
    [ErrNoneFuncs] when the worker has a server, with [ErrNoneAgents]
    when it has none. *)
Theorem Reset_forgets_functions (w : Worker) :
  writes (Reset w).2
  = map (fun ag => (ag, {| out_dataType := rt.PT_ResetAbilities;
                           out_data := []; out_handle := [] |})) w.(agents)
  ∧ (Reset w).1.(agents) = w.(agents)
  ∧ (∀ funcname,
       RemoveFunc (Reset w).1 funcname
       = ((Reset w).1, [],
          Some (Errorf "The function does not exist: %s" funcname)))
  ∧ (∀ tie inpack,
       exec (Reset w).1 tie inpack
       = Done ((Reset w).1, [],
               if w.(shuttingDown) then None
               else Some (Errorf "The function does not exist: %s"
                            inpack.(fn))))
  ∧ (∀ conn order,
       Ready (Reset w).1 conn order
       = ((Reset w).1, [],
          Some (if decide (w.(agents) = []) then ErrNoneAgents
                else ErrNoneFuncs))).
Proof.
  split_and!.
  - unfold Reset. cbn [snd]. by rewrite writes_broadcast.
  - done.
  - intros funcname. unfold RemoveFunc, Reset. cbn [fst funcs set_funcs].
    by rewrite lookup_empty.
  - intros tie inpack. destruct w.(shuttingDown) eqn:Hshut.
    + by apply exec_shutting_down.
    + apply exec_unknown; [done|]. apply lookup_empty.
  - intros conn order. unfold Ready, Reset. cbn [fst agents funcs set_funcs].
    destruct w.(agents) as [|ag ags]; [done|].
    rewrite (decide_False (P := length (ag :: ags) = 0%nat)) by done.
    rewrite (decide_True (P := size (∅ : gmap bytes jobFunc) = 0%nat))
      by apply map_size_empty.
    by rewrite decide_False.
Qed.

(** X18.  [Shutdown] waits, closes, and stops the execution of jobs.
    [Shutdown] gets past its wait for the active jobs exactly when there
    is none.  The worker is then marked as shutting down and stopped, its
    servers have been closed if it was running, and from then on [exec]
    returns nil for every job without looking the function up, calling
    it, or writing a packet. *)
Theorem Shutdown_stops_jobs (w : Worker) :
  (Shutdown w = Blocked ↔ w.(activeJobs) ≠ 0%nat)
  ∧ (∀ v, Shutdown w ≠ Panicked v)
  ∧ ∀ w' closed,
      Shutdown w = Done (w', closed) →
      closed = (if w.(running) then w.(agents) else [])
      ∧ w'.(running) = false ∧ w'.(shuttingDown) = true
      ∧ w'.(funcs) = w.(funcs)
      ∧ ∀ tie inpack, exec w' tie inpack = Done (w', [], None).
Proof.
  unfold Shutdown. cbn [activeJobs set_shuttingDown].
  destruct (decide (w.(activeJobs) = 0%nat)) as [Hz|Hnz].
  - split_and!; [split; [done|by intros ?]|done|].
    intros w' closed [= Hdone]. revert Hdone.
    destruct (Close (set_shuttingDown w true)) as [wc closed'] eqn:HC.
    intros [= <- <-].
    replace wc with (Close (set_shuttingDown w true)).1 by (by rewrite HC).
    replace closed' with (Close (set_shuttingDown w true)).2
      by (by rewrite HC).
    clear HC.
    assert (Hshut : (Close (set_shuttingDown w true)).1.(shuttingDown) = true).
    { unfold Close. cbn [running set_shuttingDown]. by destruct w.(running). }
    split_and!.
    + unfold Close. cbn [running set_shuttingDown]. by destruct w.(running).
    + unfold Close. cbn [running set_shuttingDown].
      by destruct w.(running) eqn:Hrun.
    + done.
    + unfold Close. cbn [running set_shuttingDown]. by destruct w.(running).
    + intros tie inpack. by apply exec_shutting_down.
  - split_and!; [done|done|done].
Qed.

(** X19.  How the main loop starts.  [Work] on a worker that is not
    ready calls [Ready] and panics with its error when that fails; on a
    ready worker it neither connects nor registers.  When [Work] reaches
    its loop the worker is ready and running with its function table
    unchanged, and every server has been asked for a job. *)
Theorem Work_start (w : Worker) (conn : agent -> option error)
    (order : list (bytes * jobFunc)) :
  (∀ v, Work w conn order = Panicked v ↔
        w.(ready) = false
        ∧ ∃ e, v = PanicError e ∧ (Ready w conn order).2 = Some e)
  ∧ Work w conn order ≠ Blocked
  ∧ ∀ w' tr grabbed,
      Work w conn order = Done (w', tr, grabbed) →
      w'.(running) = true ∧ w'.(ready) = true ∧ w'.(funcs) = w.(funcs)
      ∧ grabbed = w.(agents)
      ∧ (w.(ready) = true → tr = [])
      ∧ (w.(ready) = false → (w', tr, None)
                             = (set_running (Ready w conn order).1.1 true,
                                (Ready w conn order).1.2,
                                (Ready w conn order).2)).
Proof.
  unfold Work. destruct w.(ready) eqn:Hready.
  - split_and!.
    + intros v. split; [done|]. by intros [? _].
    + done.
    + intros w' tr grabbed [= <- <- <-]. by split_and!.
  - pose proof (Ready_cases w conn order) as Hc.
    destruct (Ready w conn order) as [[w1 tr1] [e|]] eqn:HR.
    + split_and!; [|done|done].
      intros v. split.
      * intros [= <-]. split; [done|]. by exists e.
      * intros (_ & e' & -> & [= <-]). done.
    + split_and!; [|done|].
      * intros v. split; [done|]. by intros (_ & e' & _ & ?).
      * intros w' tr grabbed [= <- <- <-].
        inversion Hc; subst; by split_and!.
Qed.


End worker_properties.

(** *** The worker properties at the example workers *)

Lemma example_worker_up :
  example_worker.(worker.funcs) !! B "up" = None.
Proof. vm_compute. reflexivity. Defined.

Lemma AddFunc_RemoveFunc_round_trip_witness :
  ∃ w1 tr1 tr2,
    worker.AddFunc example_worker (B "up") echo 0 = (w1, tr1, None)
    ∧ worker.RemoveFunc w1 (B "up") = (example_worker, tr2, None)
    ∧ worker.writes (tr1 ++ tr2)
      = [(7%nat, worker.prepFuncOutpack (B "up") 0);
         (7%nat, lifecycle.cantDo (B "up"))].
Proof.
  destruct (AddFunc_RemoveFunc_round_trip example_worker (B "up") echo 0
              example_worker_up) as (w1 & tr1 & tr2 & H1 & _ & H2 & H3).
  exists w1, tr1, tr2. split_and!; [exact H1 | exact H2 | exact H3].
Defined.

Lemma exec_follows_function_table_witness :
  worker.exec (worker.AddFunc example_worker (B "up") echo 0).1.1 true
    (example_job (B "up"))
  = worker.Done
      ((worker.AddFunc example_worker (B "up") echo 0).1.1,
       [worker.EWrite 7%nat
          (worker.result_outpack (example_job (B "up"))
             {| worker.r_data := B "ab"; worker.r_err := None |})], None)
  ∧ worker.exec (worker.RemoveFunc example_worker (B "rev")).1.1 true
      (example_job (B "rev"))
    = worker.Done
        ((worker.RemoveFunc example_worker (B "rev")).1.1, [],
         Some (worker.Errorf "The function does not exist: %s" (B "rev"))).
Proof.
  split.
  - apply (proj1 (exec_follows_function_table example_worker true
                    (example_job (B "up")) 7%nat eq_refl eq_refl eq_refl)
             echo 1000 (B "ab") None example_worker_up eq_refl).
  - apply (proj2 (exec_follows_function_table example_worker true
                    (example_job (B "rev")) 7%nat eq_refl eq_refl eq_refl)).
    exists (worker.mkJobFunc echo 0). vm_compute. reflexivity.
Defined.

Lemma exec_footprint_witness :
  example_worker = example_worker
  ∧ (length [worker.EWrite 7%nat
             {| worker.out_dataType := rt.PT_WorkFail; worker.out_data := [];
                worker.out_handle := B "H:1" |}] ≤ 1)%nat
  ∧ ∀ ev,
      ev ∈ [worker.EWrite 7%nat
              {| worker.out_dataType := rt.PT_WorkFail;
                 worker.out_data := []; worker.out_handle := B "H:1" |}] →
      ∃ ag p, ev = worker.EWrite ag p
              ∧ (example_job (B "slow")).(worker.a) = Some ag
              ∧ p.(worker.out_handle) = (example_job (B "slow")).(worker.handle)
              ∧ example_worker.(worker.running) = true
              ∧ example_worker.(worker.shuttingDown) = false
              ∧ (p.(worker.out_dataType) = rt.PT_WorkComplete
                 ↔ Some worker.ErrTimeOut = None).
Proof.
  apply (exec_footprint example_worker true (example_job (B "slow"))
           example_worker _ (Some worker.ErrTimeOut)).
  vm_compute. reflexivity.
Defined.

Lemma readied_worker_funcs : readied_worker.(worker.funcs) ≠ ∅.
Proof.
  intros Hempty. apply (f_equal (fun m => m !! B "rev")) in Hempty.
  vm_compute in Hempty. discriminate.
Defined.

Lemma Ready_stops_at_first_refusal_witness :
  ∃ tr,
    worker.Ready readied_worker second_refuses []
      = (readied_worker, tr,
         Some (worker.Errorf "connection refused" []))
    ∧ lifecycle.connects tr = [7%nat; 8%nat]
    ∧ worker.writes tr = [].
Proof.
  apply (Ready_stops_at_first_refusal readied_worker second_refuses []
           [7%nat] [9%nat] 8%nat (worker.Errorf "connection refused" [])
           eq_refl readied_worker_funcs).
  - intros ag' Hin. apply list_elem_of_singleton in Hin. by subst ag'.
  - reflexivity.
Defined.

Lemma readied_worker_up :
  readied_worker.(worker.funcs) !! B "up" = None.
Proof. vm_compute. reflexivity. Defined.

Lemma AddFunc_after_Ready_not_announced_witness :
  ∃ w1,
    worker.AddFunc readied_worker (B "up") echo 0 = (w1, [], None)
    ∧ w1.(worker.funcs) !! B "up" = Some (worker.mkJobFunc echo 0)
    ∧ lifecycle.Work w1 (fun _ => None) []
      = worker.Done (worker.set_running w1 true, [], w1.(worker.agents))
    ∧ worker.writes (worker.Ready w1 (fun _ => None) []).1.2 = [].
Proof.
  apply (AddFunc_after_Ready_not_announced readied_worker (B "up") echo 0
           (fun _ => None) [] eq_refl eq_refl eq_refl readied_worker_up).
Defined.

Lemma fresh_worker_Ready :
  worker.Ready fresh_worker accepted.(worker.rc_conn)
    accepted.(worker.rc_order)
  = (worker.set_ready (worker.set_once fresh_worker true) true,
     (worker.Ready fresh_worker accepted.(worker.rc_conn)
        accepted.(worker.rc_order)).1.2, None).
Proof. vm_compute. reflexivity. Defined.

Lemma reRegister_repeats_Ready_witness :
  worker.written_to 7%nat
    (worker.reRegisterFuncsForAgent
       (worker.set_ready (worker.set_once fresh_worker true) true) 7%nat
       accepted.(worker.rc_order))
  = worker.written_to 7%nat
      (worker.Ready fresh_worker accepted.(worker.rc_conn)
         accepted.(worker.rc_order)).1.2.
Proof.
  apply (proj1 (reRegister_repeats_Ready fresh_worker _
                  accepted.(worker.rc_conn) accepted.(worker.rc_order) _
                  7%nat eq_refl (NoDup_singleton 7%nat)
                  (list_elem_of_here 7%nat []) fresh_worker_Ready)).
Defined.

Lemma Close_drops_late_results_witness :
  (lifecycle.Close example_worker).2 = [7%nat]
  ∧ lifecycle.Close (lifecycle.Close example_worker).1
    = ((lifecycle.Close example_worker).1, [])
  ∧ worker.exec (lifecycle.Close example_worker).1 true
      (example_job (B "slow"))
    = worker.Done ((lifecycle.Close example_worker).1, [], None).
Proof.
  apply (Close_drops_late_results example_worker true
           (example_job (B "slow")) (worker.mkJobFunc sleepy 1)
           {| worker.r_data := []; worker.r_err := Some worker.ErrTimeOut |}
           eq_refl example_worker_slow).
  vm_compute. reflexivity.
Defined.



(* ------------------------------------------------------------------ *)
(** ** More on the commands: failures and limits                       *)
(* ------------------------------------------------------------------ *)

Module CommandFacts.
Import GoLib GoLibFacts IndexFacts SplitFuncFacts ScannerFacts ClientFacts
  SubprocessFacts bufio cmd.

Lemma IndexByte_none (s : bytes) (c : byte) : c ∉ s → IndexByte s c = None.
Proof. intros Hc. rewrite IndexByte_Index. by apply Index_byte_none. Qed.

(** The loop fails or blocks when the command answers fewer lines than
    the payload has. *)
Lemma read_lines_short (inputLines lines : list bytes) :
  ∀ (rest : bytes) (collected : list bytes) (eof : bool) (tr : list io),
    (length lines < length (filter (fun l => l ≠ []) inputLines))%nat →
    Forall (fun l => LF ∉ l) lines → LF ∉ rest →
    read_lines inputLines (line_stream lines ++ rest) eof collected tr
    = if eof then
        Done (tr ++ map (fun l => ReadString (l ++ [LF])) lines, [],
              Some (Errorf "failed to read from stdout: %v" (B "EOF")))
      else Blocked.
Proof.
  revert lines.
  induction inputLines as [|inputLine inputLines IH];
    intros lines rest collected eof tr Hlen Hnl Hrest.
  - simpl in Hlen. lia.
  - cbn [read_lines]. destruct (decide (inputLine = [])) as [->|Hne].
    + apply IH; [|done|done]. by rewrite filter_cons_False in Hlen by auto.
    + rewrite filter_cons_True in Hlen by done.
      destruct lines as [|l lines].
      * simpl. rewrite IndexByte_none by done. by rewrite app_nil_r.
      * apply Forall_cons in Hnl as [Hl Hnl].
        change (line_stream (l :: lines))
          with ((l ++ [LF]) ++ line_stream lines).
        rewrite <- (app_assoc (l ++ [LF])).
        set (out := line_stream lines ++ rest).
        assert (Hidx : IndexByte ((l ++ [LF]) ++ out) LF = Some (length l)).
        { rewrite <- app_assoc. simpl. by apply IndexByte_first. }
        rewrite Hidx.
        replace (S (length l)) with (length (l ++ [LF]))
          by (rewrite length_app; simpl; lia).
        rewrite take_app_length, drop_app_length. subst out.
        rewrite (IH lines rest) by (simpl in Hlen; auto with lia).
        destruct eof; [|done]. cbn [map]. by rewrite <- !app_assoc.
Qed.



Lemma submit_tokens_failed (funcName : bytes) (p : rt.JobPriority)
    (timeout : N) (server : nat -> bytes -> do_result)
    (outcomes : nat -> bytes -> job_outcome) (line : bytes)
    (post : list bytes) (e : bytes) (pre : list bytes) :
  Forall (fun t => t ≠ []) pre → line ≠ [] →
  ∀ k,
    (∀ i t, pre !! i = Some t →
            server (k + i)%nat t = DoCreated (outcomes (k + i)%nat t)) →
    server (k + length pre)%nat line = DoError e →
    submit_tokens funcName p timeout server k (pre ++ line :: post)
    = (job_actions funcName p timeout outcomes k pre
       ++ [Submit funcName line p],
       Some (Errorf "error submitting job: %w" e)).
Proof.
  intros Hpre Hline.
  induction Hpre as [|t pre Ht Hpre IH]; intros k Hcreated Hfail.
  - cbn [app submit_tokens length] in *. rewrite decide_False by done.
    rewrite Nat.add_0_r in Hfail. by rewrite Hfail.
  - cbn [app submit_tokens]. rewrite decide_False by done.
    specialize (Hcreated 0%nat t eq_refl) as Ht0.
    rewrite Nat.add_0_r in Ht0. rewrite Ht0.
    rewrite (IH (S k)).
    + by rewrite (job_actions_cons _ _ _ _ k t).
    + intros i t' Hi. replace (S k + i)%nat with (k + S i)%nat by lia.
      by apply Hcreated.
    + replace (S k + length pre)%nat with (k + length (t :: pre))%nat
        by (simpl; lia). done.
Qed.

(** The tokens [runClient] gets from its scanner when every piece of
    stdin fits into the buffer. *)
Lemma runClient_scan (fl : flags) (stdin : bytes) (wanted : list nat) :
  fl.(delimiter) ≠ [] →
  Forall (fun piece =>
            (length piece + length fl.(delimiter) ≤ MaxScanTokenSize)%nat)
    (Split stdin fl.(delimiter)) →
  ∃ toks,
    scan_tokens (S (length stdin))
      (if decide (fl.(delimiter) ≠ [LF])
       then delimiterSplit fl.(delimiter) else ScanLines)
      MaxScanTokenSize (NewScanner stdin wanted) = (toks, None)
    ∧ filter (fun t => t ≠ []) toks
      = filter (fun t => t ≠ [])
          (map (if decide (fl.(delimiter) = [LF]) then dropCR else id)
             (Split stdin fl.(delimiter))).
Proof.
  intros Hd Hfits. unfold Split in *.
  destruct (decide (fl.(delimiter) = [LF])) as [Hlf|Hcustom].
  - rewrite decide_False by auto. rewrite Hlf in *.
    apply (scan_tokens_pieces ScanLines [LF] dropCR MaxScanTokenSize);
      try done; [apply ScanLines_delimited | lia | lia].
  - rewrite decide_True by done.
    apply (scan_tokens_pieces (delimiterSplit fl.(delimiter))
             fl.(delimiter) id MaxScanTokenSize);
      try done; [|lia|lia].
    intros data atEOF. by apply delimiterSplit_delimited.
Qed.

Section long_token.
Variables (split : SplitFunc) (d : bytes) (post : bytes -> bytes)
  (maxTokenSize : nat).
Hypothesis Hd : d ≠ [].
Hypothesis Hsplit :
  ∀ data atEOF, split data atEOF = delimited d post data atEOF.

(** Without a delimiter in its first [maxTokenSize] bytes the input
    fills the buffer and the scan fails. *)
Lemma scan_loop_too_long (fuel : nat) :
  ∀ (s : Scanner),
    s.(eof) = false →
    Index (take maxTokenSize (s.(buf) ++ s.(src))) d = None →
    (maxTokenSize ≤ length (s.(buf) ++ s.(src)))%nat →
    (length s.(buf) ≤ maxTokenSize)%nat →
    (length s.(src) < fuel)%nat →
    scan_loop fuel split maxTokenSize s = Stop (Some ErrTooLong).
Proof.
  induction fuel as [|fuel IH]; intros s Heof Hn Hlong Hbuf Hfuel; [lia|].
  cbn [scan_loop].
  assert (Hk : Index s.(buf) d = None).
  { rewrite take_app_ge in Hn by done. by apply Index_app_None in Hn. }
  rewrite (try_split_none split d post Hsplit s Heof Hk), Heof.
  destruct (decide (maxTokenSize ≤ length s.(buf))%nat) as [Hfull|Hroom];
    [done|].
  rewrite length_app in Hlong.
  destruct s.(src) as [|x rest] eqn:Hsrc; [simpl in Hlong; lia|].
  set (n := read_size _ _ _).
  assert (1 ≤ n ≤ length (x :: rest))%nat as Hbn
    by (apply read_size_bounds; simpl; lia).
  assert (n ≤ maxTokenSize - length s.(buf))%nat as Hfree
    by (subst n; unfold read_size; lia).
  apply IH; cbn [buf src eof].
  - done.
  - by rewrite <- app_assoc, take_drop.
  - rewrite <- app_assoc, take_drop, length_app. lia.
  - rewrite length_app, length_take. lia.
  - rewrite length_drop. simpl in *. lia.
Qed.

End long_token.

Section whole_input.
Variables (split : SplitFunc) (maxTokenSize : nat).
Hypothesis Hsplit :
  ∀ data atEOF,
    split data atEOF
    = if atEOF && bool_decide (data ≠ []) then (length data, Some data)
      else (0%nat, None).

(** A split function that waits for the end of the input gets all of
    it as one token. *)
Lemma scan_loop_whole (fuel : nat) :
  ∀ (s : Scanner),
    s.(eof) = false → s.(buf) ++ s.(src) ≠ [] →
    (length (s.(buf) ++ s.(src)) < maxTokenSize)%nat →
    (S (length s.(src)) < fuel)%nat →
    ∃ w,
      scan_loop fuel split maxTokenSize s
        = Token (mkScanner [] w [] true) (s.(buf) ++ s.(src)).
Proof.
  induction fuel as [|fuel IH]; intros s Heof Hne Hlen Hfuel; [lia|].
  cbn [scan_loop].
  assert (Htry : try_split split s = inr (s.(buf), None)).
  { unfold try_split. rewrite Heof, orb_false_r.
    destruct (bool_decide (s.(buf) ≠ [])); [|done].
    rewrite Hsplit. simpl. by rewrite drop_0. }
  rewrite Htry, Heof. rewrite length_app in Hlen.
  rewrite decide_False by lia.
  destruct s.(src) as [|x rest] eqn:Hsrc.
  - rewrite app_nil_r in *. destruct fuel as [|fuel]; [simpl in *; lia|].
    cbn [scan_loop]. unfold try_split. cbn [buf eof].
    rewrite orb_true_r, Hsplit. rewrite bool_decide_eq_true_2 by done.
    cbn [andb]. rewrite decide_False by lia. rewrite drop_all. eauto.
  - set (n := read_size _ _ _).
    assert (1 ≤ n ≤ length (x :: rest))%nat as Hbn
      by (apply read_size_bounds; simpl; lia).
    destruct (IH (mkScanner (drop n (x :: rest)) (tail s.(wanted))
                    (s.(buf) ++ take n (x :: rest)) false))
      as (w & Hscan); cbn [buf src eof].
    + done.
    + by rewrite <- app_assoc, take_drop.
    + rewrite <- app_assoc, take_drop, length_app. lia.
    + rewrite length_drop. simpl in *. lia.
    + cbn [buf src eof] in *.
      rewrite <- app_assoc, take_drop in Hscan. eauto.
Qed.

Lemma scan_loop_whole_end (fuel : nat) (w : list nat) :
  (0 < fuel)%nat →
  scan_loop fuel split maxTokenSize (mkScanner [] w [] true) = Stop None.
Proof.
  intros Hfuel. destruct fuel as [|fuel]; [lia|].
  cbn [scan_loop]. unfold try_split. cbn [buf eof].
  by rewrite orb_true_r, Hsplit.
Qed.

End whole_input.

Lemma delimiterSplit_empty (data : bytes) (atEOF : bool) :
  delimiterSplit [] data atEOF
  = if atEOF && bool_decide (data ≠ []) then (length data, Some data)
    else (0%nat, None).
Proof. unfold delimiterSplit. by destruct atEOF, data. Qed.

End CommandFacts.

Section command_properties.
Import GoLib GoLibFacts IndexFacts SplitFuncFacts ScannerFacts ClientFacts
  SubprocessFacts CommandFacts bufio cmd.

(** X21.  A command that answers too few lines.  With the subprocess
    alive and its stdin accepting writes, let the command print fewer
    complete lines than the trimmed payload has non-empty lines.  Then
    the invocation reads the lines there are and fails with a read error
    and no data when stdout is at its end; while the pipe stays open it
    never returns, and neither does the job function the handler of the
    worker command builds on it. *)
Theorem persistent_subprocess_short_output (p : subprocess) (data : bytes)
    (lines : list bytes) (rest : bytes) (elapsed : N)
    (job : worker.inPack) :
  p.(exited) = false →
  Forall (fun r => r = None) p.(write_results) →
  (length lines < length (nonempty_lines (TrimSpace data)))%nat →
  Forall (fun l => LF ∉ l) lines → LF ∉ rest →
  p.(stdout) = line_stream lines ++ rest →
  (p.(stdout_eof) = true →
   ∃ tr,
     processJobWithPersistentSubprocess p data
       = Done (tr, [], Some (Errorf "failed to read from stdout: %v"
                               (B "EOF")))
     ∧ reads tr = map (fun l => l ++ [LF]) lines)
  ∧ (p.(stdout_eof) = false →
     processJobWithPersistentSubprocess p data = Blocked
     ∧ (job.(worker.data) = data →
        handler.createJobHandler (handler.Persistent p) elapsed job
        = worker.Hangs)).
Proof.
  intros Hexited Hwrites Hlen Hnl Hrest Hout.
  assert (Hw : ∀ i e, p.(write_results) !! i ≠ Some (Some e)).
  { intros i e Hi. by apply (Forall_lookup_1 _ _ _ _ Hwrites) in Hi. }
  assert (Hrun : ∃ tr0,
            processJobWithPersistentSubprocess p data
            = read_lines (Split (TrimSpace data) [LF])
                (line_stream lines ++ rest) p.(stdout_eof) [] tr0
            ∧ reads tr0 = []).
  { unfold processJobWithPersistentSubprocess. rewrite Hexited, Hout.
    destruct (p.(write_results) !! 0%nat) as [[e|]|] eqn:H0;
      [by destruct (Hw 0%nat e)| |];
      (destruct (HasSuffix data [LF]);
       [| destruct (p.(write_results) !! 1%nat) as [[e|]|] eqn:H1;
          [by destruct (Hw 1%nat e)| |] ]); by eexists. }
  destruct Hrun as (tr0 & Hrun & Hreads).
  rewrite read_lines_short in Hrun by done.
  split; intros Heof; rewrite Heof in Hrun.
  - eexists. split; [exact Hrun|].
    by rewrite reads_app, Hreads, reads_ReadString.
  - split; [done|]. intros Hdata.
    unfold handler.createJobHandler. by rewrite Hdata, Hrun.
Qed.


(** X23.  A failed submission ends the run.  Under the conditions of a
    regular run (non-empty delimiter, every piece of stdin fits into the
    scanner's buffer), let the jobs for the tokens [pre] be created and
    the submission of the next token [line] fail.  Then the jobs of [pre]
    have been submitted and reported, [line] has been handed to the
    server once, the command returns the submission error, and the tokens
    after [line] are never submitted. *)
Theorem runClient_stops_at_failed_submission (fl : flags)
    (funcName : bytes) (server : nat -> bytes -> do_result)
    (outcomes : nat -> bytes -> job_outcome) (stdin : bytes)
    (wanted : list nat) (pre post : list bytes) (line e : bytes) :
  fl.(delimiter) ≠ [] →
  Forall (fun piece =>
            (length piece + length fl.(delimiter) ≤ MaxScanTokenSize)%nat)
    (Split stdin fl.(delimiter)) →
  filter (fun t => t ≠ [])
    (map (if decide (fl.(delimiter) = [LF]) then dropCR else id)
       (Split stdin fl.(delimiter))) = pre ++ line :: post →
  (∀ i t, pre !! i = Some t → server i t = DoCreated (outcomes i t)) →
  server (length pre) line = DoError e →
  runClient fl funcName None server stdin wanted
    = (job_actions funcName (jobPriority_of fl.(priority)) fl.(timeout)
         outcomes 0 pre
       ++ [Submit funcName line (jobPriority_of fl.(priority))],
       Some (Errorf "error submitting job: %w" e))
  ∧ submitted (runClient fl funcName None server stdin wanted).1
    = pre ++ [line].
Proof.
  intros Hd Hfits Htokens Hcreated Hfail.
  destruct (runClient_scan fl stdin wanted Hd Hfits)
    as (toks & Hscan & Hfilter).
  assert (Hne : Forall (fun t => t ≠ []) (pre ++ line :: post)).
  { rewrite <- Htokens. apply Forall_forall.
    by intros t [Ht _]%list_elem_of_filter. }
  apply Forall_app in Hne as [Hpre Hline].
  apply Forall_cons in Hline as [Hline _].
  assert (Hrun : runClient fl funcName None server stdin wanted
                 = (job_actions funcName (jobPriority_of fl.(priority))
                      fl.(timeout) outcomes 0 pre
                    ++ [Submit funcName line (jobPriority_of fl.(priority))],
                    Some (Errorf "error submitting job: %w" e))).
  { unfold runClient. rewrite Hscan.
    rewrite submit_tokens_filter, Hfilter, Htokens.
    by rewrite (submit_tokens_failed _ _ _ _ outcomes line post e pre). }
  split; [done|]. rewrite Hrun. cbn [fst].
  unfold submitted. rewrite omap_app.
  fold (submitted (job_actions funcName (jobPriority_of fl.(priority))
                     fl.(timeout) outcomes 0 pre)).
  by rewrite submitted_job_actions.
Qed.

(** X24.  A record that does not fit.  When the delimiter is not empty
    and the first 64 KiB of stdin hold no delimiter, the scanner gives up
    with stdin unread beyond its buffer: no job is submitted and the
    command returns the error on reading stdin, however stdin arrives in
    pieces. *)
Theorem runClient_record_too_long (fl : flags) (funcName : bytes)
    (server : nat -> bytes -> do_result) (stdin : bytes)
    (wanted : list nat) :
  fl.(delimiter) ≠ [] →
  Index (take MaxScanTokenSize stdin) fl.(delimiter) = None →
  (MaxScanTokenSize ≤ length stdin)%nat →
  runClient fl funcName None server stdin wanted
  = ([], Some (Errorf "error reading from stdin: %w" [])).
Proof.
  intros Hd Hnone Hlong.
  assert (Hscan :
    scan_tokens (S (length stdin))
      (if decide (fl.(delimiter) ≠ [LF])
       then delimiterSplit fl.(delimiter) else ScanLines)
      MaxScanTokenSize (NewScanner stdin wanted) = ([], Some ErrTooLong)).
  { cbn [scan_tokens]. unfold Scan.
    destruct (decide (fl.(delimiter) ≠ [LF])) as [Hcustom|Hlf].
    - rewrite (scan_loop_too_long (delimiterSplit fl.(delimiter))
                 fl.(delimiter) id MaxScanTokenSize);
        try done; cbn [NewScanner buf src eof length]; try lia.
      intros data atEOF. by apply delimiterSplit_delimited.
    - assert (fl.(delimiter) = [LF]) as Heq
        by (by destruct (decide (fl.(delimiter) = [LF]))).
      rewrite Heq in *.
      rewrite (scan_loop_too_long ScanLines [LF] dropCR MaxScanTokenSize);
        try done; cbn [NewScanner buf src eof length]; try lia.
      apply ScanLines_delimited. }
  unfold runClient. by rewrite Hscan.
Qed.

(** X25.  An empty delimiter makes all of stdin one job.  With the
    delimiter flag set to the empty string the split function waits for
    the end of the input: stdin, when not empty and shorter than 64 KiB,
    is submitted as a single job, newlines included, and its outcome is
    reported. *)
Theorem runClient_empty_delimiter (fl : flags) (funcName : bytes)
    (server : nat -> bytes -> do_result) (stdin : bytes)
    (wanted : list nat) :
  fl.(delimiter) = [] → stdin ≠ [] →
  (length stdin < MaxScanTokenSize)%nat →
  runClient fl funcName None server stdin wanted
  = match server 0%nat stdin with
    | DoError e =>
        ([Submit funcName stdin (jobPriority_of fl.(priority))],
         Some (Errorf "error submitting job: %w" e))
    | DoCreated o =>
        ([Submit funcName stdin (jobPriority_of fl.(priority));
          report fl.(timeout) o], None)
    end.
Proof.
  intros Hd Hne Hlen.
  assert (Hscan :
    scan_tokens (S (length stdin))
      (if decide (fl.(delimiter) ≠ [LF])
       then delimiterSplit fl.(delimiter) else ScanLines)
      MaxScanTokenSize (NewScanner stdin wanted) = ([stdin], None)).
  { rewrite Hd. rewrite decide_True by done.
    destruct stdin as [|x rest] eqn:Hstdin; [done|]. rewrite <- Hstdin in *.
    assert (Hl : length stdin = S (length rest)) by (by rewrite Hstdin).
    rewrite Hl. cbn [scan_tokens]. unfold Scan.
    destruct (scan_loop_whole (delimiterSplit []) MaxScanTokenSize
                delimiterSplit_empty
                (S (S (length (NewScanner stdin wanted).(src))))
                (NewScanner stdin wanted)) as (w & Hw);
      cbn [NewScanner buf src eof app]; try done; try lia.
    cbn [NewScanner buf src eof app] in Hw. rewrite Hw.
    cbn [src length].
    by rewrite (scan_loop_whole_end (delimiterSplit []) MaxScanTokenSize
                  delimiterSplit_empty) by lia. }
  unfold runClient. rewrite Hscan. cbn [submit_tokens].
  rewrite decide_False by done.
  destruct (server 0%nat stdin); done.
Qed.

End command_properties.

(** *** The command properties at the examples *)

Lemma persistent_subprocess_short_output_witness :
  cmd.processJobWithPersistentSubprocess silent_subprocess two_line_payload
  = cmd.Blocked
  ∧ handler.createJobHandler (handler.Persistent silent_subprocess) 1000
      {| worker.dataType := rt.PT_JobAssign; worker.data := two_line_payload;
         worker.handle := B "H:1"; worker.uniqueId := [];
         worker.fn := B "rev"; worker.a := Some 7%nat |}
    = worker.Hangs.
Proof.
  destruct (proj2 (persistent_subprocess_short_output silent_subprocess
                     two_line_payload [B "ba"] [] 1000
                     {| worker.dataType := rt.PT_JobAssign;
                        worker.data := two_line_payload;
                        worker.handle := B "H:1"; worker.uniqueId := [];
                        worker.fn := B "rev"; worker.a := Some 7%nat |}
                     eq_refl
                     ltac:(constructor)
                     ltac:(vm_compute; lia)
                     ltac:(repeat constructor; apply (bool_decide_unpack _);
                           vm_compute; exact I)
                     ltac:(apply not_elem_of_nil)
                     ltac:(vm_compute; reflexivity)) eq_refl)
    as [Hblocked Hhangs].
  split; [exact Hblocked | exact (Hhangs eq_refl)].
Defined.

Lemma runClient_stops_at_failed_submission_witness :
  cmd.submitted
    (cmd.runClient comma_flags (B "square") None failing_server comma_input
       [2%nat; 1%nat]).1
  = [B "1"; B "2"].
Proof.
  apply (proj2 (runClient_stops_at_failed_submission comma_flags (B "square")
                  failing_server (fun _ payload => cmd.Complete payload)
                  comma_input [2%nat; 1%nat] [B "1"] [B "3"] (B "2")
                  (B "connection lost")
                  ltac:(discriminate)
                  ltac:(apply (bool_decide_unpack _); vm_compute; exact I)
                  ltac:(vm_compute; reflexivity)
                  ltac:(intros [|[|i]] t [= <-]; reflexivity)
                  ltac:(reflexivity))).
Defined.

Lemma runClient_record_too_long_witness :
  cmd.runClient default_flags (B "square") None echo_server long_record
    [4096%nat]
  = ([], Some (cmd.Errorf "error reading from stdin: %w" [])).
Proof.
  apply (runClient_record_too_long default_flags (B "square") echo_server
           long_record [4096%nat]).
  - discriminate.
  - vm_compute. reflexivity.
  - unfold long_record. rewrite length_replicate. lia.
Defined.

Lemma runClient_empty_delimiter_witness :
  cmd.runClient whole_input_flags (B "count") None echo_server
    two_line_payload [1%nat]
  = ([cmd.Submit (B "count") two_line_payload rt.JobLow;
      cmd.Stdout (two_line_payload ++ [LF])], None).
Proof.
  apply (runClient_empty_delimiter whole_input_flags (B "count") echo_server
           two_line_payload [1%nat] eq_refl).
  - discriminate.
  - apply Nat.ltb_lt. vm_compute. reflexivity.
Defined.
